(** * The user store of server/storage.ts

    A shallow embedding of the two [IStorage] implementations, [MemStorage]
    and [FileStorage], and of what they rely on: the insertion-ordered
    JavaScript [Map], object spread on the [User] record, [randomUUID], the
    three [fs/promises] calls and the JSON text of the snapshot file.

    - Asynchrony.  Every method is an [async] function that is run to
      completion before the next one starts: a method is a state transformer
      that either returns a value or throws, and keeps the mutations it made
      before throwing.  Interleavings of several pending methods are not
      modelled.
    - Types.  [User] and [InsertUser] are taken at their TypeScript types:
      three string fields, two string fields.  The argument of
      [updateUser] is an object that passes as [Partial<InsertUser>]: its
      members are strings, and besides the two optional fields of the type
      it may carry an [id]. *)

From Stdlib Require Import String Ascii List Bool Arith Lia.
Import ListNotations.
Open Scope string_scope.

(** ** shared/schema: the record types *)

(** [User]: the row type of the users table. *)
Record User := mkUser {
  id : string;
  username : string;
  password : string
}.

(** [InsertUser]: what a caller supplies; it has no [id]. *)
Record InsertUser := mkInsertUser {
  ins_username : string;
  ins_password : string
}.

(** An object that is given as a [Partial<InsertUser>]: each of the two
    fields of the type present with a string ([Some]) or absent ([None]).
    The type has no [id], but only an object literal is checked for members
    in excess: a wider object, a [User] for one, passes as it is and
    carries its [id], with a string ([Some]), into the call. *)
Record PartialInsertUser := mkPatchObject {
  patch_username : option string;
  patch_password : option string;
  patch_id : option string
}.

(** The patch with the members of the type only. *)
Definition mkPatch (n p : option string) : PartialInsertUser :=
  {| patch_username := n; patch_password := p; patch_id := None |}.

(** [{ ...insertUser, id }] *)
Definition spread_with_id (insertUser : InsertUser) (i : string) : User :=
  {| id := i;
     username := ins_username insertUser;
     password := ins_password insertUser |}.

(** [{ ...existing, ...patch }]: a member of the patch that is present
    overwrites, an absent one leaves the field of [existing]; the [id] is
    a member like the others. *)
Definition spread_patch (existing : User) (patch : PartialInsertUser) : User :=
  {| id := match patch_id patch with
           | Some i => i
           | None => id existing
           end;
     username := match patch_username patch with
                 | Some n => n
                 | None => username existing
                 end;
     password := match patch_password patch with
                 | Some p => p
                 | None => password existing
                 end |}.

(** ** The JavaScript [Map], keyed by strings

    A [Map] iterates in insertion order, [set] on a key that is present
    keeps the key's position, and [delete] tells whether the key was there:
    an association list, oldest entry first. *)
Module JSMap.

Definition t (V : Type) : Type := list (string * V).

Definition empty {V} : t V := [].

Fixpoint get {V} (k : string) (m : t V) : option V :=
  match m with
  | [] => None
  | (k', v) :: r => if String.eqb k' k then Some v else get k r
  end.

Definition has {V} (k : string) (m : t V) : bool :=
  match get k m with Some _ => true | None => false end.

Fixpoint set {V} (k : string) (v : V) (m : t V) : t V :=
  match m with
  | [] => [(k, v)]
  | (k', v') :: r =>
      if String.eqb k' k then (k, v) :: r else (k', v') :: set k v r
  end.

(** The map without the key [k]; a map has a key at most once. *)
Fixpoint remove {V} (k : string) (m : t V) : t V :=
  match m with
  | [] => []
  | (k', v') :: r =>
      if String.eqb k' k then remove k r else (k', v') :: remove k r
  end.

(** [m.delete(k)]: the result and the map afterwards. *)
Definition delete {V} (k : string) (m : t V) : bool * t V :=
  (has k m, remove k m).

Definition keys {V} (m : t V) : list string := map fst m.

Definition values {V} (m : t V) : list V := map snd m.

(** [new Map(entries)]: the entries are [set] one after the other. *)
Definition of_entries {V} (entries : list (string * V)) : t V :=
  fold_left (fun m e => set (fst e) (snd e) m) entries empty.

(** No key twice: what every map built with [set] and [remove] from
    [empty] satisfies. *)
Definition wf {V} (m : t V) : Prop := NoDup (keys m).

End JSMap.

(** [Array.prototype.find] *)
Fixpoint Array_find {A} (p : A -> bool) (l : list A) : option A :=
  match l with
  | [] => None
  | x :: r => if p x then Some x else Array_find p r
  end.

(** ** The world outside the store *)

(** The [err.code] of a failed [fs] call. *)
Inductive errno := ENOENT | EACCES | ENOSPC | EIO.

(** What a method can throw: a system error of an [fs] call, the
    [SyntaxError]/[TypeError] of reading a text that is not a [User[]], or
    the [Error] of a [bcryptjs] call. *)
Inductive Fault :=
| SystemError (code : errno)
| ParseError
| BcryptError.

Definition is_ENOENT (e : Fault) : bool :=
  match e with SystemError ENOENT => true | _ => false end.

(** The world: the directory and the file at the path of the store, the
    faults the environment injects into the [fs] calls to come (the n-th
    call fails with [fs_fault n] when that is [Some]), and the identifiers
    [randomUUID] is going to produce.  The world follows that one path
    only: the [fs] calls of a store are calls on its [filePath], and the
    stores that meet in one world are stores on the same path. *)
Record World := mkWorld {
  dir_exists : bool;
  file : option string;
  fs_fault : nat -> option errno;
  fs_calls : nat;
  entropy : nat -> string;
  drawn : nat
}.

Definition tick (w : World) : World :=
  {| dir_exists := dir_exists w; file := file w;
     fs_fault := fs_fault w; fs_calls := S (fs_calls w);
     entropy := entropy w; drawn := drawn w |}.

Definition with_dir (w : World) : World :=
  {| dir_exists := true; file := file w;
     fs_fault := fs_fault w; fs_calls := fs_calls w;
     entropy := entropy w; drawn := drawn w |}.

Definition with_file (data : string) (w : World) : World :=
  {| dir_exists := dir_exists w; file := Some data;
     fs_fault := fs_fault w; fs_calls := fs_calls w;
     entropy := entropy w; drawn := drawn w |}.

Definition draw (w : World) : World :=
  {| dir_exists := dir_exists w; file := file w;
     fs_fault := fs_fault w; fs_calls := fs_calls w;
     entropy := entropy w; drawn := S (drawn w) |}.

(** ** Methods: state, the world, and exceptions *)

Inductive Outcome (A : Type) :=
| Returns (a : A)
| Throws (e : Fault).
Arguments Returns {A} a.
Arguments Throws {A} e.

(** A method of an object of type [T]: from the object and the world to an
    outcome, the object and the world afterwards. *)
Definition M (T A : Type) : Type := T -> World -> Outcome A * T * World.

Definition ret {T A} (a : A) : M T A := fun this w => (Returns a, this, w).

Definition throw {T A} (e : Fault) : M T A := fun this w => (Throws e, this, w).

Definition bind {T A B} (c : M T A) (k : A -> M T B) : M T B :=
  fun this w =>
    match c this w with
    | (Returns a, this', w') => k a this' w'
    | (Throws e, this', w') => (Throws e, this', w')
    end.

(** [try { c } catch (err) { handler(err) }] *)
Definition try_catch {T A} (c : M T A) (handler : Fault -> M T A) : M T A :=
  fun this w =>
    match c this w with
    | (Returns a, this', w') => (Returns a, this', w')
    | (Throws e, this', w') => handler e this' w'
    end.

Declare Scope method_scope.
Delimit Scope method_scope with method.
Notation "x <- c ;; k" := (bind c (fun x => k))
  (at level 61, c at next level, right associativity) : method_scope.
Notation "c ;; k" := (bind c (fun _ => k))
  (at level 61, right associativity) : method_scope.
Open Scope method_scope.

(** What a call gave, the object after it, and the world after it. *)
Definition result {X T} (r : X * T * World) : X := fst (fst r).
Definition object {X T} (r : X * T * World) : T := snd (fst r).
Definition world {X T} (r : X * T * World) : World := snd r.

(** [randomUUID()] *)
Definition randomUUID {T} : M T string :=
  fun this w => (Returns (entropy w (drawn w)), this, draw w).

(** [fs.readFile(filePath, { encoding: "utf8" })] *)
Definition fs_readFile {T} : M T string :=
  fun this w =>
    match fs_fault w (fs_calls w) with
    | Some e => (Throws (SystemError e), this, tick w)
    | None =>
        match file w with
        | Some raw => (Returns raw, this, tick w)
        | None => (Throws (SystemError ENOENT), this, tick w)
        end
    end.

(** [fs.mkdir(dir, { recursive: true })] *)
Definition fs_mkdir {T} : M T unit :=
  fun this w =>
    match fs_fault w (fs_calls w) with
    | Some e => (Throws (SystemError e), this, tick w)
    | None => (Returns tt, this, with_dir (tick w))
    end.

(** [fs.writeFile(filePath, data, { encoding: "utf8" })]: replaces the
    contents of the file; a write that fails leaves the file as it was. *)
Definition fs_writeFile {T} (data : string) : M T unit :=
  fun this w =>
    match fs_fault w (fs_calls w) with
    | Some e => (Throws (SystemError e), this, tick w)
    | None =>
        if dir_exists w then (Returns tt, this, with_file data (tick w))
        else (Throws (SystemError ENOENT), this, tick w)
    end.

(** ** The snapshot text: [JSON.stringify(arr, null, 2)] and [JSON.parse]

    Strings are sequences of 8-bit code units.  [stringify] is the text
    [JSON.stringify] produces for an array of [User] objects with a two-space
    indent, the members in the order [{ ...insertUser, id }] lays them out.
    [parse] reads the JSON texts that denote a [User[]]: an array of
    objects with the three string members in any order, with any JSON white
    space between the tokens.  On any other text it is [None]: the
    [SyntaxError] of [JSON.parse], or a value outside the type the source
    casts to. *)
Module JSON.

Definition dquote : ascii := "034"%char.
Definition backslash : ascii := "092"%char.
Definition nl : string := String "010"%char EmptyString.

Definition hex_digit (n : nat) : ascii :=
  nth n (list_ascii_of_string "0123456789abcdef") "0"%char.

(** The escape of one code unit in [QuoteJSONString]. *)
Definition quote_char (c : ascii) : string :=
  if Ascii.eqb c dquote then String backslash (String dquote EmptyString)
  else if Ascii.eqb c backslash then String backslash (String backslash EmptyString)
  else if Ascii.eqb c "008"%char then String backslash "b"
  else if Ascii.eqb c "012"%char then String backslash "f"
  else if Ascii.eqb c "010"%char then String backslash "n"
  else if Ascii.eqb c "013"%char then String backslash "r"
  else if Ascii.eqb c "009"%char then String backslash "t"
  else if (nat_of_ascii c <? 32)%nat then
    String backslash
      (String "u" (String "0" (String "0"
        (String (hex_digit (nat_of_ascii c / 16))
          (String (hex_digit (nat_of_ascii c mod 16)) EmptyString)))))
  else String c EmptyString.

Fixpoint escape (s : string) : string :=
  match s with
  | EmptyString => EmptyString
  | String c r => quote_char c ++ escape r
  end.

(** [QuoteJSONString] *)
Definition quote (s : string) : string :=
  String dquote (escape s ++ String dquote EmptyString).

Definition member (key val : string) : string :=
  quote key ++ ": " ++ quote val.

(** [SerializeJSONObject] of a [User], one level deep, the gap two spaces. *)
Definition SerializeJSONObject (u : User) : string :=
  "{" ++ nl ++ "    " ++ member "username" (username u) ++ ","
      ++ nl ++ "    " ++ member "password" (password u) ++ ","
      ++ nl ++ "    " ++ member "id" (id u)
      ++ nl ++ "  }".

(** The elements, joined by a comma, a line break and the indent. *)
Fixpoint elements (arr : list User) : string :=
  match arr with
  | [] => EmptyString
  | [u] => SerializeJSONObject u
  | u :: r => SerializeJSONObject u ++ "," ++ nl ++ "  " ++ elements r
  end.

(** [JSON.stringify(arr, null, 2)] *)
Definition stringify (arr : list User) : string :=
  match arr with
  | [] => "[]"
  | _ => "[" ++ nl ++ "  " ++ elements arr ++ nl ++ "]"
  end.

Inductive token :=
| TLBracket | TRBracket | TLBrace | TRBrace | TColon | TComma
| TString (s : string).

Definition is_ws (c : ascii) : bool :=
  Ascii.eqb c " "%char || Ascii.eqb c "009"%char
  || Ascii.eqb c "010"%char || Ascii.eqb c "013"%char.

Definition hex_val (c : ascii) : option nat :=
  let n := nat_of_ascii c in
  if ((48 <=? n) && (n <=? 57))%nat then Some (n - 48)
  else if ((97 <=? n) && (n <=? 102))%nat then Some (n - 87)
  else if ((65 <=? n) && (n <=? 70))%nat then Some (n - 55)
  else None.

(** The code unit of [\uXXXX]; one above 255 is outside the alphabet. *)
Definition hex4 (a b c d : ascii) : option ascii :=
  match hex_val a, hex_val b, hex_val c, hex_val d with
  | Some x, Some y, Some z, Some t =>
      let n := ((x * 16 + y) * 16 + z) * 16 + t in
      if (n <? 256)%nat then Some (ascii_of_nat n) else None
  | _, _, _, _ => None
  end.

(** The character a single-letter escape stands for. *)
Definition unescape (e : ascii) : option ascii :=
  if Ascii.eqb e dquote then Some dquote
  else if Ascii.eqb e backslash then Some backslash
  else if Ascii.eqb e "/"%char then Some "/"%char
  else if Ascii.eqb e "b"%char then Some "008"%char
  else if Ascii.eqb e "f"%char then Some "012"%char
  else if Ascii.eqb e "n"%char then Some "010"%char
  else if Ascii.eqb e "r"%char then Some "013"%char
  else if Ascii.eqb e "t"%char then Some "009"%char
  else None.

Definition snoc (acc : string) (c : ascii) : string :=
  acc ++ String c EmptyString.

(** The tokens of a text.  [lit] is [None] between tokens, and
    [Some acc] inside a string literal of which [acc] has been read. *)
Fixpoint lex (lit : option string) (inp : string) : option (list token) :=
  match lit with
  | None =>
      match inp with
      | EmptyString => Some []
      | String c r =>
          if is_ws c then lex None r
          else if Ascii.eqb c "["%char then option_map (cons TLBracket) (lex None r)
          else if Ascii.eqb c "]"%char then option_map (cons TRBracket) (lex None r)
          else if Ascii.eqb c "{"%char then option_map (cons TLBrace) (lex None r)
          else if Ascii.eqb c "}"%char then option_map (cons TRBrace) (lex None r)
          else if Ascii.eqb c ":"%char then option_map (cons TColon) (lex None r)
          else if Ascii.eqb c ","%char then option_map (cons TComma) (lex None r)
          else if Ascii.eqb c dquote then lex (Some EmptyString) r
          else None
      end
  | Some acc =>
      match inp with
      | EmptyString => None
      | String c r =>
          if Ascii.eqb c dquote then option_map (cons (TString acc)) (lex None r)
          else if Ascii.eqb c backslash then
            match r with
            | EmptyString => None
            | String e r' =>
                match unescape e with
                | Some d => lex (Some (snoc acc d)) r'
                | None =>
                    if Ascii.eqb e "u"%char then
                      match r' with
                      | String h1 (String h2 (String h3 (String h4 r''))) =>
                          match hex4 h1 h2 h3 h4 with
                          | Some d => lex (Some (snoc acc d)) r''
                          | None => None
                          end
                      | _ => None
                      end
                    else None
                end
            end
          else if (nat_of_ascii c <? 32)%nat then None
          else lex (Some (snoc acc c)) r
      end
  end.

(** The user with the three members [fields], whatever their order. *)
Definition user_of_members (fields : list (string * string)) : option User :=
  match JSMap.get "id" fields, JSMap.get "username" fields,
        JSMap.get "password" fields with
  | Some i, Some n, Some p => Some (mkUser i n p)
  | _, _, _ => None
  end.

(** One object, then either a comma and more objects or the closing
    bracket that ends the text. *)
Fixpoint parse_objects (ts : list token) : option (list User) :=
  match ts with
  | TLBrace :: TString k1 :: TColon :: TString v1
      :: TComma :: TString k2 :: TColon :: TString v2
      :: TComma :: TString k3 :: TColon :: TString v3
      :: TRBrace :: rest =>
      match user_of_members [(k1, v1); (k2, v2); (k3, v3)] with
      | Some u =>
          match rest with
          | [TRBracket] => Some [u]
          | TComma :: rest' => option_map (cons u) (parse_objects rest')
          | _ => None
          end
      | None => None
      end
  | _ => None
  end.

Definition parse_array (ts : list token) : option (list User) :=
  match ts with
  | [TLBracket; TRBracket] => Some []
  | TLBracket :: r => parse_objects r
  | _ => None
  end.

(** [JSON.parse(raw) as User[]] *)
Definition parse (raw : string) : option (list User) :=
  match lex None raw with
  | Some ts => parse_array ts
  | None => None
  end.

(** The tokens of the text [stringify] writes. *)
Definition member_tokens (key val : string) : list token :=
  [TString key; TColon; TString val].

Definition object_tokens (u : User) : list token :=
  ([TLBrace] ++ member_tokens "username" (username u)
   ++ [TComma] ++ member_tokens "password" (password u)
   ++ [TComma] ++ member_tokens "id" (id u) ++ [TRBrace])%list.

Fixpoint elements_tokens (arr : list User) : list token :=
  match arr with
  | [] => []
  | [u] => object_tokens u
  | u :: r => (object_tokens u ++ TComma :: elements_tokens r)%list
  end.

End JSON.

(** ** The storage interface *)

(** [interface IStorage] *)
Class IStorage (T : Type) := {
  getUser : string -> M T (option User);
  getUserByUsername : string -> M T (option User);
  createUser : InsertUser -> M T User;
  updateUser : string -> PartialInsertUser -> M T (option User);
  deleteUser : string -> M T bool;
  listUsers : M T (list User)
}.

(** ** [class MemStorage] *)
Module MemStorage.

Record t := mk { users : JSMap.t User }.

(** [this.users] *)
Definition this_users : M t (JSMap.t User) :=
  fun this w => (Returns (users this), this, w).

(** The mutation of [this.users] by [set] or [delete]. *)
Definition put_users (m : JSMap.t User) : M t unit :=
  fun this w => (Returns tt, {| users := m |}, w).

(** [constructor()] *)
Definition new : t := {| users := JSMap.empty |}.

Definition getUser (i : string) : M t (option User) :=
  m <- this_users ;;
  ret (JSMap.get i m).

Definition getUserByUsername (name : string) : M t (option User) :=
  m <- this_users ;;
  ret (Array_find (fun user => String.eqb (username user) name) (JSMap.values m)).

Definition createUser (insertUser : InsertUser) : M t User :=
  i <- randomUUID ;;
  let user := spread_with_id insertUser i in
  m <- this_users ;;
  put_users (JSMap.set i user m) ;;
  ret user.

Definition updateUser (i : string) (patch : PartialInsertUser) : M t (option User) :=
  m <- this_users ;;
  match JSMap.get i m with
  | None => ret None
  | Some existing =>
      let updated := spread_patch existing patch in
      put_users (JSMap.set i updated m) ;;
      ret (Some updated)
  end.

Definition deleteUser (i : string) : M t bool :=
  m <- this_users ;;
  put_users (snd (JSMap.delete i m)) ;;
  ret (fst (JSMap.delete i m)).

Definition listUsers : M t (list User) :=
  m <- this_users ;;
  ret (JSMap.values m).

End MemStorage.

#[export] Instance MemStorage_IStorage : IStorage MemStorage.t := {|
  getUser := MemStorage.getUser;
  getUserByUsername := MemStorage.getUserByUsername;
  createUser := MemStorage.createUser;
  updateUser := MemStorage.updateUser;
  deleteUser := MemStorage.deleteUser;
  listUsers := MemStorage.listUsers
|}.

(** ** [class FileStorage] *)
Module FileStorage.

Record t := mk { users : JSMap.t User; filePath : string }.

Definition this_users : M t (JSMap.t User) :=
  fun this w => (Returns (users this), this, w).

Definition put_users (m : JSMap.t User) : M t unit :=
  fun this w => (Returns tt, {| users := m; filePath := filePath this |}, w).

(** [path.join(process.cwd(), "server", "data", "users.json")], relative
    to the working directory. *)
Definition default_filePath : string := "server/data/users.json".

Definition persist : M t unit :=
  m <- this_users ;;
  let arr := JSMap.values m in
  fs_mkdir ;;
  fs_writeFile (JSON.stringify arr).

Definition load : M t unit :=
  try_catch
    (raw <- fs_readFile ;;
     match JSON.parse raw with
     | Some arr => put_users (JSMap.of_entries (map (fun u => (id u, u)) arr))
     | None => throw ParseError
     end)
    (fun err =>
       if is_ENOENT err then
         persist ;;
         put_users JSMap.empty
       else throw err).

(** [this.ready]: the load, its failure logged and dropped. *)
Definition ready : M t unit :=
  try_catch load (fun err => ret tt).

(** [constructor(file?)].  The load it starts is run to its end here, so
    that the promise [ready] is settled when the first method is called. *)
Definition new (file : option string) (w : World) : t * World :=
  let path :=
    match file with
    | Some f => if String.eqb f EmptyString then default_filePath else f
    | None => default_filePath
    end in
  let r := ready {| users := JSMap.empty; filePath := path |} w in
  (object r, world r).

(** [await this.ready], on the settled promise. *)
Definition waitReady : M t unit := ret tt.

Definition getUser (i : string) : M t (option User) :=
  waitReady ;;
  m <- this_users ;;
  ret (JSMap.get i m).

Definition getUserByUsername (name : string) : M t (option User) :=
  waitReady ;;
  m <- this_users ;;
  ret (Array_find (fun u => String.eqb (username u) name) (JSMap.values m)).

Definition createUser (insertUser : InsertUser) : M t User :=
  waitReady ;;
  i <- randomUUID ;;
  let user := spread_with_id insertUser i in
  m <- this_users ;;
  put_users (JSMap.set i user m) ;;
  persist ;;
  ret user.

Definition updateUser (i : string) (patch : PartialInsertUser) : M t (option User) :=
  waitReady ;;
  m <- this_users ;;
  match JSMap.get i m with
  | None => ret None
  | Some existing =>
      let updated := spread_patch existing patch in
      put_users (JSMap.set i updated m) ;;
      persist ;;
      ret (Some updated)
  end.

Definition deleteUser (i : string) : M t bool :=
  waitReady ;;
  m <- this_users ;;
  let removed := fst (JSMap.delete i m) in
  put_users (snd (JSMap.delete i m)) ;;
  (if removed then persist else ret tt) ;;
  ret removed.

Definition listUsers : M t (list User) :=
  waitReady ;;
  m <- this_users ;;
  ret (JSMap.values m).

End FileStorage.

#[export] Instance FileStorage_IStorage : IStorage FileStorage.t := {|
  getUser := FileStorage.getUser;
  getUserByUsername := FileStorage.getUserByUsername;
  createUser := FileStorage.createUser;
  updateUser := FileStorage.updateUser;
  deleteUser := FileStorage.deleteUser;
  listUsers := FileStorage.listUsers
|}.

(** [export const storage: IStorage = new FileStorage()] *)
Definition storage (w : World) : FileStorage.t * World := FileStorage.new None w.

(** ** Callers: sequences of operations on a store *)

Inductive Op :=
| GetUser (i : string)
| GetUserByUsername (name : string)
| CreateUser (insertUser : InsertUser)
| UpdateUser (i : string) (patch : PartialInsertUser)
| DeleteUser (i : string)
| ListUsers.

(** What the promise of an operation resolves to. *)
Inductive Reply :=
| RUser (u : option User)
| RCreated (u : User)
| RBool (b : bool)
| RList (l : list User).

Definition fmap {T A B} (f : A -> B) (c : M T A) : M T B :=
  a <- c ;; ret (f a).

Definition exec {T} `{IStorage T} (op : Op) : M T Reply :=
  match op with
  | GetUser i => fmap RUser (getUser i)
  | GetUserByUsername name => fmap RUser (getUserByUsername name)
  | CreateUser insertUser => fmap RCreated (createUser insertUser)
  | UpdateUser i patch => fmap RUser (updateUser i patch)
  | DeleteUser i => fmap RBool (deleteUser i)
  | ListUsers => fmap RList listUsers
  end.

(** The operations one after the other, each awaited before the next; the
    outcomes in order, and the store and the world at the end. *)
Fixpoint run {T} `{IStorage T} (ops : list Op) (this : T) (w : World)
  : list (Outcome Reply) * T * World :=
  match ops with
  | [] => ([], this, w)
  | op :: rest =>
      let r := exec op this w in
      let r' := run rest (object r) (world r) in
      (result r :: result r', object r', world r')
  end.

(** ** Notions the properties are stated with *)

(** Every key of the collection is the [id] of the record stored under it. *)
Definition keyed_by_id (m : JSMap.t User) : Prop :=
  Forall (fun e => fst e = id (snd e)) m.

(** The entries [new Map(arr.map((u) => [u.id, u]))] is built from. *)
Definition entries_of (arr : list User) : list (string * User) :=
  map (fun u => (id u, u)) arr.

(** The last element of an array that satisfies [p]. *)
Definition Array_findLast {A} (p : A -> bool) (l : list A) : option A :=
  Array_find p (rev l).

Definition has_id (i : string) (u : User) : bool := String.eqb (id u) i.

(** Whether an operation changes the collection [m]: [createUser] always,
    [updateUser] and [deleteUser] when the identifier is present. *)
Definition changes_collection (op : Op) (m : JSMap.t User) : bool :=
  match op with
  | CreateUser _ => true
  | UpdateUser i _ => JSMap.has i m
  | DeleteUser i => JSMap.has i m
  | _ => false
  end.

(** The three operations the contract calls mutating. *)
Definition is_mutating_call (op : Op) : bool :=
  match op with
  | CreateUser _ | UpdateUser _ _ | DeleteUser _ => true
  | _ => false
  end.

(** The collection after the in-memory step of an operation, [uuid] being
    the identifier drawn by [createUser]. *)
Definition mutated (op : Op) (uuid : string) (m : JSMap.t User) : JSMap.t User :=
  match op with
  | CreateUser insertUser => JSMap.set uuid (spread_with_id insertUser uuid) m
  | UpdateUser i patch =>
      match JSMap.get i m with
      | Some existing => JSMap.set i (spread_patch existing patch) m
      | None => m
      end
  | DeleteUser i => JSMap.remove i m
  | _ => m
  end.

(** The fault of a [persist] started in world [w]: that of its [mkdir],
    else that of its [writeFile]. *)
Definition persist_fault (w : World) : option errno :=
  match fs_fault w (fs_calls w) with
  | Some e => Some e
  | None => fs_fault w (S (fs_calls w))
  end.

(** The world after a [persist] of [data] that did not fail. *)
Definition persisted (data : string) (w : World) : World :=
  with_file data (tick (with_dir (tick w))).

(** The world after a [persist] that failed: at [mkdir], or at
    [writeFile]. *)
Definition persist_failed (w : World) : World :=
  match fs_fault w (fs_calls w) with
  | Some _ => tick w
  | None => tick (with_dir (tick w))
  end.

(** The snapshot file holds the serialization of the collection in memory. *)
Definition snapshot_in_sync (this : FileStorage.t) (w : World) : Prop :=
  file w = Some (JSON.stringify (JSMap.values (FileStorage.users this))).

(** The collection a store constructed in world [w] has once it is ready:
    that of the file when it is read and parsed, the empty one otherwise. *)
Definition loaded_users (w : World) : JSMap.t User :=
  match fs_fault w (fs_calls w), file w with
  | None, Some raw =>
      match JSON.parse raw with
      | Some arr => JSMap.of_entries (entries_of arr)
      | None => JSMap.empty
      end
  | _, _ => JSMap.empty
  end.

(** No [fs] call is made to fail. *)
Definition no_fs_fault (w : World) : Prop :=
  forall n, fs_fault w n = None.

(** A volatile store and a durable store that hold the same collection, in
    worlds that draw the same identifiers, the durable one on a disk that
    does not fail and holds the snapshot of the collection. *)
Definition mirrors (mem : MemStorage.t) (wm : World)
                   (fs : FileStorage.t) (wf : World) : Prop :=
  MemStorage.users mem = FileStorage.users fs /\
  entropy wm = entropy wf /\ drawn wm = drawn wf /\
  no_fs_fault wf /\ snapshot_in_sync fs wf.

(** A collection as the stores keep it. *)
Definition well_keyed (m : JSMap.t User) : Prop :=
  JSMap.wf m /\ keyed_by_id m.

(** What [getUser(i)] may give: nothing, or a record whose id is [i]. *)
Definition absent_or_has_id (i : string) (r : Outcome (option User)) : Prop :=
  match r with
  | Returns None => True
  | Returns (Some u) => id u = i
  | Throws _ => False
  end.

(** The identifiers of the records the [createUser] calls of a run gave. *)
Fixpoint created_ids (outcomes : list (Outcome Reply)) : list string :=
  match outcomes with
  | [] => []
  | Returns (RCreated u) :: r => id u :: created_ids r
  | _ :: r => created_ids r
  end.

(** ** Worlds and data of the examples *)

(** A generator of identifiers that never repeats: [0], [10], [110], ... *)
Fixpoint uuid_of (n : nat) : string :=
  match n with
  | 0 => "0"
  | S k => String "1" (uuid_of k)
  end.

(** A disk on which the directory of the store does not exist yet. *)
Definition fresh_disk : World :=
  {| dir_exists := false; file := None;
     fs_fault := fun _ => None; fs_calls := 0;
     entropy := uuid_of; drawn := 0 |}.

(** A disk on which the snapshot file holds [raw]. *)
Definition disk_with (raw : string) : World :=
  {| dir_exists := true; file := Some raw;
     fs_fault := fun _ => None; fs_calls := 0;
     entropy := uuid_of; drawn := 0 |}.

(** The world [w], its [n]-th [fs] call failing for lack of space. *)
Definition disk_full_at (n : nat) (w : World) : World :=
  {| dir_exists := dir_exists w; file := file w;
     fs_fault := fun k => if Nat.eqb k n then Some ENOSPC else fs_fault w k;
     fs_calls := fs_calls w; entropy := entropy w; drawn := drawn w |}.

(** Two records with the same id. *)
Definition twice_seven : list User :=
  [mkUser "7" "ann" "h1"; mkUser "7" "bob" "h2"].

Definition bob_and_cy : JSMap.t User :=
  [("7", mkUser "7" "bob" "h2"); ("8", mkUser "8" "cy" "h3")].

(** ** server/routes: the handlers of the auth endpoints

    The handlers are taken at the types the client sends and the store
    keeps: the two members of the request body are strings or missing.
    [bcryptjs] is a parameter, and so is the salt [hashSync] generates. *)

(** [bcryptjs], as far as the handlers use it, on strings:
    [hashSync salt password] is [bcrypt.hashSync(password, 10)] when the
    salt generated is [salt], and [compareSync password hash] is
    [bcrypt.compareSync(password, hash)], which is [None] when the call
    throws, as it does on a stored string of the length of a hash whose
    salt is not one. *)
Record Bcrypt := mkBcrypt {
  hashSync : string -> string -> string;
  compareSync : string -> string -> option bool
}.

(** [bcrypt.compareSync(password, hash)] in a handler. *)
Definition bcrypt_compareSync {T} (bcrypt : Bcrypt) (pass hash : string)
  : M T bool :=
  fun this w =>
    match compareSync bcrypt pass hash with
    | Some ok => (Returns ok, this, w)
    | None => (Throws BcryptError, this, w)
    end.

(** [const { username, password } = req.body ?? {}] *)
Record Body := mkBody {
  body_username : option string;
  body_password : option string
}.

(** [const { password: _p, ...safe } = user]: the user without the
    password. *)
Record SafeUser := mkSafeUser {
  safe_id : string;
  safe_username : string
}.

Definition strip_password (u : User) : SafeUser :=
  {| safe_id := id u; safe_username := username u |}.

(** What [res.json] is given. *)
Inductive Payload :=
| ErrorPayload (error : string)
| UserPayload (safe : SafeUser)
| UsersPayload (safe : list SafeUser).

(** [res.status(code).json(payload)]; [res.json(payload)] has status 200. *)
Record Response := mkResponse {
  status : nat;
  payload : Payload
}.

(** The value of a member that is truthy: present and not the empty
    string. *)
Definition truthy (x : option string) : option string :=
  match x with
  | Some s => if String.eqb s EmptyString then None else Some s
  | None => None
  end.

(** [app.post("/api/register", ...)] *)
Definition post_register {T} `{IStorage T} (bcrypt : Bcrypt) (salt : string)
    (req : Body) : M T Response :=
  try_catch
    (match truthy (body_username req), truthy (body_password req) with
     | Some name, Some pass =>
         existing <- getUserByUsername name ;;
         match existing with
         | Some _ => ret (mkResponse 409 (ErrorPayload "username already taken"))
         | None =>
             let hashed := hashSync bcrypt salt pass in
             user <- createUser (mkInsertUser name hashed) ;;
             ret (mkResponse 201 (UserPayload (strip_password user)))
         end
     | _, _ =>
         ret (mkResponse 400 (ErrorPayload "username and password are required"))
     end)
    (fun err => ret (mkResponse 500 (ErrorPayload "failed to create user"))).

(** [app.post("/api/login", ...)] *)
Definition post_login {T} `{IStorage T} (bcrypt : Bcrypt) (req : Body)
  : M T Response :=
  try_catch
    (match truthy (body_username req), truthy (body_password req) with
     | Some name, Some pass =>
         user <- getUserByUsername name ;;
         match user with
         | None => ret (mkResponse 401 (ErrorPayload "invalid credentials"))
         | Some u =>
             ok <- bcrypt_compareSync bcrypt pass (password u) ;;
             if ok
             then ret (mkResponse 200 (UserPayload (strip_password u)))
             else ret (mkResponse 401 (ErrorPayload "invalid credentials"))
         end
     | _, _ =>
         ret (mkResponse 400 (ErrorPayload "username and password are required"))
     end)
    (fun err => ret (mkResponse 500 (ErrorPayload "failed to login"))).

(** [app.get("/api/users", ...)] *)
Definition get_users {T} `{IStorage T} : M T Response :=
  try_catch
    (users <- listUsers ;;
     ret (mkResponse 200 (UsersPayload (map strip_password users))))
    (fun err => ret (mkResponse 500 (ErrorPayload "failed to list users"))).

(** A request to one of the three endpoints; a registration comes with the
    salt its hash is going to use. *)
Inductive Request :=
| Register (salt : string) (req : Body)
| Login (req : Body)
| Users.

Definition serve {T} `{IStorage T} (bcrypt : Bcrypt) (rq : Request)
  : M T Response :=
  match rq with
  | Register salt req => post_register bcrypt salt req
  | Login req => post_login bcrypt req
  | Users => get_users
  end.

(** The requests one after the other, each answered before the next. *)
Fixpoint serve_all {T} `{IStorage T} (bcrypt : Bcrypt) (rqs : list Request)
    (this : T) (w : World) : list (Outcome Response) * T * World :=
  match rqs with
  | [] => ([], this, w)
  | rq :: rest =>
      let r := serve bcrypt rq this w in
      let r' := serve_all bcrypt rest (object r) (world r) in
      (result r :: result r', object r', world r')
  end.

(** ** Further notions *)

Definition has_username (name : string) (u : User) : bool :=
  String.eqb (username u) name.

(** No two records of the collection have the same username. *)
Definition unique_usernames (m : JSMap.t User) : Prop :=
  NoDup (map username (JSMap.values m)).

(** The id an operation works on: the one drawn for [createUser], the
    argument of [updateUser] and [deleteUser]. *)
Definition target (op : Op) (w : World) : option string :=
  match op with
  | CreateUser _ => Some (entropy w (drawn w))
  | UpdateUser i _ => Some i
  | DeleteUser i => Some i
  | _ => None
  end.

(** The patch that has the fields of [later] and, where [later] has none,
    those of [earlier]. *)
Definition patch_over (later earlier : PartialInsertUser) : PartialInsertUser :=
  {| patch_username := match patch_username later with
                       | Some n => Some n
                       | None => patch_username earlier
                       end;
     patch_password := match patch_password later with
                       | Some p => Some p
                       | None => patch_password earlier
                       end;
     patch_id := match patch_id later with
                 | Some i => Some i
                 | None => patch_id earlier
                 end |}.

(** The patch leaves the id of the record under [i] alone: it carries no
    [id], or the id [i] itself. *)
Definition patch_keeps_id (i : string) (patch : PartialInsertUser) : bool :=
  match patch_id patch with
  | Some i' => String.eqb i' i
  | None => true
  end.

Definition op_keeps_id (op : Op) : bool :=
  match op with
  | UpdateUser i patch => patch_keeps_id i patch
  | _ => true
  end.

(** The first character of a text that is not JSON white space. *)
Fixpoint first_significant (raw : string) : option ascii :=
  match raw with
  | EmptyString => None
  | String c r => if JSON.is_ws c then first_significant r else Some c
  end.

(** The characters a JSON value can start with: a bracket, a brace, a
    quote, a minus sign, a digit, and the first letters of [true], [false]
    and [null]. *)
Definition starts_json_value (c : ascii) : bool :=
  Ascii.eqb c "["%char || Ascii.eqb c "{"%char || Ascii.eqb c JSON.dquote
  || Ascii.eqb c "-"%char
  || ((48 <=? nat_of_ascii c) && (nat_of_ascii c <=? 57))%nat
  || Ascii.eqb c "t"%char || Ascii.eqb c "f"%char || Ascii.eqb c "n"%char.

(** A text that is no JSON text by its first character: it is empty, or
    white space only, or starts with a character no JSON value starts
    with.  [JSON.parse] throws a [SyntaxError] on it. *)
Definition not_json (raw : string) : bool :=
  match first_significant raw with
  | None => true
  | Some c => negb (starts_json_value c)
  end.

(** The outcome [durable] of the durable store is the outcome [volatile] of
    the volatile store, or the system error of a failed persist. *)
Definition same_or_fs_error {A} (durable volatile : Outcome A) : Prop :=
  durable = volatile \/ exists e, durable = Throws (SystemError e).

(** The path a store constructed with [file] keeps. *)
Definition chosen_path (file : option string) : string :=
  match file with
  | Some f => if String.eqb f EmptyString then FileStorage.default_filePath else f
  | None => FileStorage.default_filePath
  end.

(** A disk whose every [fs] call fails. *)
Definition broken_disk (w : World) : World :=
  {| dir_exists := dir_exists w; file := file w;
     fs_fault := fun _ => Some EIO;
     fs_calls := fs_calls w; entropy := entropy w; drawn := drawn w |}.

(** A [bcryptjs] for the examples: the hash is the salt, a dollar sign and
    the password, which [compareSync] looks for after the dollar sign; it
    throws on a stored string without a dollar sign. *)
Fixpoint has_dollar (h : string) : bool :=
  match h with
  | EmptyString => false
  | String c r => Ascii.eqb c "$"%char || has_dollar r
  end.

Fixpoint after_dollar (h : string) : string :=
  match h with
  | EmptyString => EmptyString
  | String c r => if Ascii.eqb c "$"%char then r else after_dollar r
  end.

Definition toy_bcrypt : Bcrypt :=
  {| hashSync := fun salt pass => salt ++ String "$"%char pass;
     compareSync := fun pass h =>
       if has_dollar h then Some (String.eqb pass (after_dollar h)) else None |}.

Definition ann_and_bob : JSMap.t User :=
  [("1", mkUser "1" "ann" "s$h1"); ("2", mkUser "2" "bob" "s$h2")].

(** The read of the load reports the file as missing. *)
Definition read_reports_missing (w : World) : bool :=
  match fs_fault w (fs_calls w) with
  | Some e => is_ENOENT (SystemError e)
  | None => match file w with Some _ => false | None => true end
  end.

(** The world once the store constructed in [w] is ready. *)
Definition loaded_world (w : World) : World :=
  if read_reports_missing w then
    match persist_fault (tick w) with
    | None => persisted (JSON.stringify []) (tick w)
    | Some _ => persist_failed (tick w)
    end
  else tick w.

(** A disk on which a store finds what a store left: no snapshot file, or
    the snapshot of a collection keyed by id. *)
Definition boots_in_sync (w : World) : Prop :=
  file w = None \/
  exists m, well_keyed m /\ file w = Some (JSON.stringify (JSMap.values m)).

(** ** Facts about [JSMap] *)
Section JSMapFacts.

Context {V : Type}.
Implicit Types (k : string) (v : V) (m : JSMap.t V).

Lemma get_set_same k v m : JSMap.get k (JSMap.set k v m) = Some v.
Proof.
  induction m as [|[k' v'] r IH]; simpl.
  - now rewrite String.eqb_refl.
  - destruct (String.eqb k' k) eqn:E; simpl.
    + now rewrite String.eqb_refl.
    + now rewrite E.
Qed.

Lemma get_set_other k k' v m :
  k <> k' -> JSMap.get k' (JSMap.set k v m) = JSMap.get k' m.
Proof.
  intros Hne. induction m as [|[k0 v0] r IH]; simpl.
  - apply String.eqb_neq in Hne. now rewrite Hne.
  - destruct (String.eqb k0 k) eqn:E; simpl.
    + apply String.eqb_eq in E. subst k0.
      apply String.eqb_neq in Hne. now rewrite Hne.
    + now rewrite IH.
Qed.

Lemma get_remove_same k m : JSMap.get k (JSMap.remove k m) = None.
Proof.
  induction m as [|[k' v'] r IH]; simpl; auto.
  destruct (String.eqb k' k) eqn:E; simpl; auto.
  now rewrite E.
Qed.

Lemma get_remove_other k k' m :
  k <> k' -> JSMap.get k' (JSMap.remove k m) = JSMap.get k' m.
Proof.
  intros Hne. induction m as [|[k0 v0] r IH]; simpl; auto.
  destruct (String.eqb k0 k) eqn:E; simpl.
  - apply String.eqb_eq in E. subst k0.
    apply String.eqb_neq in Hne. now rewrite Hne.
  - now rewrite IH.
Qed.

Lemma remove_absent k m : JSMap.get k m = None -> JSMap.remove k m = m.
Proof.
  induction m as [|[k' v'] r IH]; simpl; auto.
  destruct (String.eqb k' k) eqn:E; [discriminate|].
  intros H. now rewrite IH.
Qed.

Lemma has_false_get k m : JSMap.has k m = false <-> JSMap.get k m = None.
Proof. unfold JSMap.has. destruct (JSMap.get k m); split; congruence. Qed.

Lemma has_remove_same k m : JSMap.has k (JSMap.remove k m) = false.
Proof. apply has_false_get, get_remove_same. Qed.

Lemma get_None_keys k m : JSMap.get k m = None <-> ~ In k (JSMap.keys m).
Proof.
  induction m as [|[k' v'] r IH]; simpl.
  - tauto.
  - destruct (String.eqb k' k) eqn:E.
    + apply String.eqb_eq in E. split; [discriminate | intros H; exfalso; auto].
    + apply String.eqb_neq in E. rewrite IH. tauto.
Qed.

Lemma get_Some_In k v m : JSMap.get k m = Some v -> In (k, v) m.
Proof.
  induction m as [|[k' v'] r IH]; simpl; [discriminate|].
  destruct (String.eqb k' k) eqn:E.
  - apply String.eqb_eq in E. intros [= ->]. subst. now left.
  - auto.
Qed.

Lemma set_absent k v m :
  JSMap.get k m = None -> JSMap.set k v m = (m ++ [(k, v)])%list.
Proof.
  induction m as [|[k' v'] r IH]; simpl; auto.
  destruct (String.eqb k' k) eqn:E; [discriminate|].
  intros H. now rewrite IH.
Qed.

Lemma keys_set k v m k' :
  In k' (JSMap.keys (JSMap.set k v m)) <-> k' = k \/ In k' (JSMap.keys m).
Proof.
  induction m as [|[k0 v0] r IH]; simpl.
  - intuition.
  - destruct (String.eqb k0 k) eqn:E; simpl.
    + apply String.eqb_eq in E. subst. intuition.
    + rewrite IH. intuition.
Qed.

Lemma keys_remove k m k' :
  In k' (JSMap.keys (JSMap.remove k m)) <-> k' <> k /\ In k' (JSMap.keys m).
Proof.
  induction m as [|[k0 v0] r IH]; simpl.
  - tauto.
  - destruct (String.eqb k0 k) eqn:E; simpl.
    + apply String.eqb_eq in E. subst. rewrite IH.
      split; [tauto|]. intros [Hne [H|H]]; [congruence | tauto].
    + apply String.eqb_neq in E. rewrite IH.
      split; [intros [H|H]; [subst|]; tauto | tauto].
Qed.

Lemma wf_empty : JSMap.wf (@JSMap.empty V).
Proof. constructor. Qed.

Lemma wf_set k v m : JSMap.wf m -> JSMap.wf (JSMap.set k v m).
Proof.
  unfold JSMap.wf. induction m as [|[k0 v0] r IH]; simpl; intros H.
  - repeat constructor. auto.
  - inversion H as [|? ? Hnin Hnd]; subst.
    destruct (String.eqb k0 k) eqn:E; simpl.
    + apply String.eqb_eq in E. subst. now constructor.
    + apply String.eqb_neq in E. constructor; auto.
      change (~ In k0 (JSMap.keys (JSMap.set k v r))).
      rewrite keys_set. intros [->|Hin]; auto.
Qed.

Lemma wf_remove k m : JSMap.wf m -> JSMap.wf (JSMap.remove k m).
Proof.
  unfold JSMap.wf. induction m as [|[k0 v0] r IH]; simpl; intros H; auto.
  inversion H as [|? ? Hnin Hnd]; subst.
  destruct (String.eqb k0 k) eqn:E; simpl; auto.
  constructor; auto.
  change (~ In k0 (JSMap.keys (JSMap.remove k r))).
  rewrite keys_remove. tauto.
Qed.

Lemma wf_fold_set (entries : list (string * V)) m :
  JSMap.wf m ->
  JSMap.wf (fold_left (fun m e => JSMap.set (fst e) (snd e) m) entries m).
Proof.
  revert m. induction entries as [|e r IH]; simpl; intros m H; auto.
  apply IH, wf_set, H.
Qed.

Lemma wf_of_entries (entries : list (string * V)) :
  JSMap.wf (JSMap.of_entries entries).
Proof. apply wf_fold_set, wf_empty. Qed.

End JSMapFacts.

(** ** Facts about the snapshot text *)
Section JSONFacts.

Import JSON.

Lemma append_assoc (a b c : string) : (a ++ b) ++ c = a ++ (b ++ c).
Proof. induction a as [|x a IH]; simpl; [reflexivity | now rewrite IH]. Qed.

Lemma append_nil_r (a : string) : a ++ EmptyString = a.
Proof. induction a as [|x a IH]; simpl; [reflexivity | now rewrite IH]. Qed.

(** Reading the escape of a code unit gives the code unit back. *)
Lemma lex_quote_char c acc rest :
  lex (Some acc) (quote_char c ++ rest) = lex (Some (snoc acc c)) rest.
Proof. destruct c as [[] [] [] [] [] [] [] []]; reflexivity. Qed.

Lemma lex_escape s : forall acc rest,
  lex (Some acc) (escape s ++ String dquote rest)
  = option_map (cons (TString (acc ++ s))) (lex None rest).
Proof.
  induction s as [|c s IH]; intros acc rest; simpl.
  - now rewrite append_nil_r.
  - rewrite append_assoc, lex_quote_char, IH.
    unfold snoc. now rewrite append_assoc.
Qed.

Lemma lex_quote s rest :
  lex None (quote s ++ rest) = option_map (cons (TString s)) (lex None rest).
Proof.
  unfold quote. simpl. rewrite append_assoc. simpl.
  now rewrite lex_escape.
Qed.

Lemma lex_member key val rest :
  lex None (member key val ++ rest)
  = option_map (app (member_tokens key val)) (lex None rest).
Proof.
  unfold member. rewrite !append_assoc, lex_quote. cbn -[quote].
  rewrite lex_quote. now destruct (lex None rest).
Qed.

Lemma lex_object u rest :
  lex None (SerializeJSONObject u ++ rest)
  = option_map (app (object_tokens u)) (lex None rest).
Proof.
  unfold SerializeJSONObject. rewrite !append_assoc. cbn -[member].
  rewrite lex_member. cbn -[member]. rewrite lex_member. cbn -[member].
  rewrite lex_member. cbn -[member].
  now destruct (lex None rest).
Qed.

Lemma lex_elements arr rest :
  lex None (elements arr ++ rest)
  = option_map (app (elements_tokens arr)) (lex None rest).
Proof.
  induction arr as [|u r IH].
  - simpl. now destruct (lex None rest).
  - destruct r as [|u' r'].
    + simpl. apply lex_object.
    + change (elements (u :: u' :: r'))
        with (SerializeJSONObject u ++ "," ++ nl ++ "  " ++ elements (u' :: r')).
      rewrite !append_assoc, lex_object. cbn -[elements].
      rewrite IH.
      destruct (lex None rest); reflexivity.
Qed.

Lemma parse_objects_last u :
  parse_objects (object_tokens u ++ [TRBracket]) = Some [u].
Proof. destruct u; reflexivity. Qed.

Lemma parse_objects_more u ts :
  parse_objects (object_tokens u ++ TComma :: ts)
  = option_map (cons u) (parse_objects ts).
Proof. destruct u; reflexivity. Qed.

Lemma parse_elements_tokens u r :
  parse_objects (elements_tokens (u :: r) ++ [TRBracket]) = Some (u :: r).
Proof.
  revert u. induction r as [|u' r IH]; intros u.
  - apply parse_objects_last.
  - change (elements_tokens (u :: u' :: r))
      with (object_tokens u ++ TComma :: elements_tokens (u' :: r))%list.
    rewrite <- app_assoc, <- app_comm_cons, parse_objects_more, IH.
    reflexivity.
Qed.

(** [JSON.parse(JSON.stringify(arr, null, 2))] is [arr]. *)
Lemma parse_stringify arr : parse (stringify arr) = Some arr.
Proof.
  destruct arr as [|u r]; [reflexivity|].
  unfold parse, stringify.
  change ("[" ++ nl ++ "  " ++ elements (u :: r) ++ nl ++ "]")
    with (String "[" (String "010" (String " " (String " "
           (elements (u :: r) ++ nl ++ "]"))))).
  cbn -[elements]. rewrite lex_elements. cbn -[elements_tokens].
  rewrite parse_elements_tokens. destruct r; reflexivity.
Qed.

End JSONFacts.

(** ** Facts about collections of users *)
Section CollectionFacts.

Implicit Types (m : JSMap.t User) (u : User) (arr : list User).

Lemma keyed_set u m :
  keyed_by_id m -> keyed_by_id (JSMap.set (id u) u m).
Proof.
  unfold keyed_by_id. induction m as [|[k v] r IH]; simpl; intros H.
  - repeat constructor.
  - inversion H; subst.
    destruct (String.eqb k (id u)); constructor; auto.
Qed.

Lemma keyed_remove k m :
  keyed_by_id m -> keyed_by_id (JSMap.remove k m).
Proof.
  unfold keyed_by_id. induction m as [|[k' v] r IH]; simpl; intros H; auto.
  inversion H; subst.
  destruct (String.eqb k' k); auto.
Qed.

Lemma keyed_get k u m :
  keyed_by_id m -> JSMap.get k m = Some u -> id u = k.
Proof.
  intros H Hg. apply get_Some_In in Hg.
  unfold keyed_by_id in H. rewrite Forall_forall in H.
  symmetry. exact (H _ Hg).
Qed.

Lemma keyed_fold_entries arr m :
  keyed_by_id m ->
  keyed_by_id (fold_left (fun m e => JSMap.set (fst e) (snd e) m)
                         (entries_of arr) m).
Proof.
  revert m. induction arr as [|u r IH]; simpl; intros m H; auto.
  apply IH, keyed_set, H.
Qed.

Lemma keyed_of_entries arr : keyed_by_id (JSMap.of_entries (entries_of arr)).
Proof. apply keyed_fold_entries. constructor. Qed.

Lemma Array_find_app {A} (p : A -> bool) (l1 l2 : list A) :
  Array_find p (l1 ++ l2)
  = match Array_find p l1 with
    | Some x => Some x
    | None => Array_find p l2
    end.
Proof.
  induction l1 as [|x l1 IH]; simpl; auto.
  destruct (p x); auto.
Qed.

(** Of the entries with one key, [new Map] keeps the last. *)
Lemma get_fold_entries i arr : forall m,
  JSMap.get i (fold_left (fun m e => JSMap.set (fst e) (snd e) m)
                         (entries_of arr) m)
  = match Array_findLast (has_id i) arr with
    | Some u => Some u
    | None => JSMap.get i m
    end.
Proof.
  unfold Array_findLast.
  induction arr as [|a r IH]; intros m; simpl; auto.
  rewrite IH, Array_find_app.
  destruct (Array_find (has_id i) (rev r)); auto.
  simpl. unfold has_id. destruct (String.eqb (id a) i) eqn:E.
  - apply String.eqb_eq in E. subst. apply get_set_same.
  - apply String.eqb_neq in E. now apply get_set_other.
Qed.

Lemma get_of_entries i arr :
  JSMap.get i (JSMap.of_entries (entries_of arr))
  = Array_findLast (has_id i) arr.
Proof.
  unfold JSMap.of_entries. rewrite get_fold_entries.
  now destruct (Array_findLast (has_id i) arr).
Qed.

(** In a collection keyed by id, the records with a given id are the one
    stored under it, if any. *)
Lemma filter_has_id i m :
  JSMap.wf m -> keyed_by_id m ->
  filter (has_id i) (JSMap.values m)
  = match JSMap.get i m with Some u => [u] | None => [] end.
Proof.
  unfold JSMap.wf, keyed_by_id.
  induction m as [|[k u] r IH]; simpl; intros Hnd Hk; auto.
  inversion Hnd as [|? ? Hnin Hnd']; subst.
  inversion Hk as [|? ? Hku Hk']; subst. simpl in Hku. subst k.
  unfold has_id at 1. destruct (String.eqb (id u) i) eqn:E.
  - apply String.eqb_eq in E. subst i.
    rewrite IH by assumption.
    apply get_None_keys in Hnin. now rewrite Hnin.
  - now apply IH.
Qed.

(** Rebuilding a collection from its values gives the collection back. *)
Lemma fold_entries_values m2 : forall m1,
  keyed_by_id m2 -> JSMap.wf (m1 ++ m2)%list ->
  fold_left (fun m e => JSMap.set (fst e) (snd e) m)
            (entries_of (JSMap.values m2)) m1
  = (m1 ++ m2)%list.
Proof.
  unfold JSMap.wf, JSMap.keys.
  induction m2 as [|[k u] r IH]; intros m1 Hk Hnd; simpl.
  - now rewrite app_nil_r.
  - inversion Hk as [|? ? Hku Hk']; subst. simpl in Hku. subst k.
    rewrite set_absent.
    + rewrite IH; auto.
      * now rewrite <- app_assoc.
      * now rewrite <- app_assoc.
    + apply get_None_keys. unfold JSMap.keys.
      rewrite map_app in Hnd. simpl in Hnd.
      apply NoDup_remove_2 in Hnd.
      intros Hin. apply Hnd. apply in_or_app. now left.
Qed.

Lemma of_entries_values m :
  keyed_by_id m -> JSMap.wf m ->
  JSMap.of_entries (entries_of (JSMap.values m)) = m.
Proof.
  intros Hk Hwf. unfold JSMap.of_entries.
  now rewrite fold_entries_values.
Qed.

End CollectionFacts.

(** ** What the methods of [FileStorage] compute *)
Section MethodFacts.

Lemma persist_run this w :
  FileStorage.persist this w
  = match persist_fault w with
    | None => (Returns tt, this,
               persisted (JSON.stringify (JSMap.values (FileStorage.users this))) w)
    | Some e => (Throws (SystemError e), this, persist_failed w)
    end.
Proof.
  unfold FileStorage.persist, persist_fault, persist_failed, persisted, bind,
    FileStorage.this_users, fs_mkdir, fs_writeFile.
  destruct (fs_fault w (fs_calls w)) eqn:E1; [reflexivity|].
  simpl. destruct (fs_fault w (S (fs_calls w))); reflexivity.
Qed.

Lemma createUser_run insertUser this w :
  FileStorage.createUser insertUser this w
  = let i := entropy w (drawn w) in
    let user := spread_with_id insertUser i in
    let this' := FileStorage.mk (JSMap.set i user (FileStorage.users this))
                                (FileStorage.filePath this) in
    match persist_fault w with
    | None => (Returns user, this',
               persisted (JSON.stringify (JSMap.values (FileStorage.users this'))) (draw w))
    | Some e => (Throws (SystemError e), this', persist_failed (draw w))
    end.
Proof.
  unfold FileStorage.createUser, FileStorage.waitReady.
  unfold bind at 1. unfold ret at 1. unfold bind at 1. unfold randomUUID at 1.
  unfold bind at 1. unfold FileStorage.this_users at 1.
  unfold bind at 1. unfold FileStorage.put_users at 1.
  unfold bind at 1. rewrite persist_run.
  change (persist_fault (draw w)) with (persist_fault w).
  cbv zeta. destruct (persist_fault w); reflexivity.
Qed.

Lemma updateUser_run i patch this w :
  FileStorage.updateUser i patch this w
  = match JSMap.get i (FileStorage.users this) with
    | None => (Returns None, this, w)
    | Some existing =>
        let updated := spread_patch existing patch in
        let this' := FileStorage.mk (JSMap.set i updated (FileStorage.users this))
                                    (FileStorage.filePath this) in
        match persist_fault w with
        | None => (Returns (Some updated), this',
                   persisted (JSON.stringify (JSMap.values (FileStorage.users this'))) w)
        | Some e => (Throws (SystemError e), this', persist_failed w)
        end
    end.
Proof.
  unfold FileStorage.updateUser, FileStorage.waitReady.
  unfold bind at 1. unfold ret at 1. unfold bind at 1.
  unfold FileStorage.this_users at 1.
  destruct (JSMap.get i (FileStorage.users this)) as [existing|]; [|reflexivity].
  cbv zeta. unfold bind at 1. unfold FileStorage.put_users at 1.
  unfold bind at 1. rewrite persist_run.
  destruct (persist_fault w); reflexivity.
Qed.

Lemma deleteUser_run i this w :
  FileStorage.deleteUser i this w
  = let this' := FileStorage.mk (JSMap.remove i (FileStorage.users this))
                                (FileStorage.filePath this) in
    if JSMap.has i (FileStorage.users this) then
      match persist_fault w with
      | None => (Returns true, this',
                 persisted (JSON.stringify (JSMap.values (FileStorage.users this'))) w)
      | Some e => (Throws (SystemError e), this', persist_failed w)
      end
    else (Returns false, this', w).
Proof.
  unfold FileStorage.deleteUser, FileStorage.waitReady.
  unfold bind at 1. unfold ret at 1. unfold bind at 1.
  unfold FileStorage.this_users at 1. cbv zeta.
  unfold bind at 1. unfold FileStorage.put_users at 1.
  unfold JSMap.delete. simpl fst. simpl snd.
  destruct (JSMap.has i (FileStorage.users this)).
  - unfold bind at 1. rewrite persist_run.
    destruct (persist_fault w); reflexivity.
  - reflexivity.
Qed.

Lemma new_users path w :
  FileStorage.users (fst (FileStorage.new path w)) = loaded_users w.
Proof.
  unfold FileStorage.new, FileStorage.ready, FileStorage.load, loaded_users.
  set (p := match path with Some f => _ | None => _ end). clearbody p.
  cbv zeta. unfold object, world. simpl fst.
  unfold try_catch at 1. unfold try_catch at 1.
  unfold bind at 1. unfold fs_readFile at 1.
  destruct (fs_fault w (fs_calls w)) as [e|] eqn:Ef.
  - destruct e; simpl; try reflexivity.
    unfold bind. rewrite persist_run.
    destruct (persist_fault (tick w)); reflexivity.
  - destruct (file w) as [raw|] eqn:Efile.
    + destruct (JSON.parse raw); reflexivity.
    + simpl. unfold bind. rewrite persist_run.
      destruct (persist_fault (tick w)); reflexivity.
Qed.

Lemma new_world_bootstrap path w :
  file w = None -> fs_fault w (fs_calls w) = None ->
  persist_fault (tick w) = None ->
  snd (FileStorage.new path w) = persisted "[]" (tick w).
Proof.
  intros Hfile Hread Hpersist.
  unfold FileStorage.new, FileStorage.ready, FileStorage.load.
  set (p := match path with Some f => _ | None => _ end). clearbody p.
  cbv zeta. unfold object, world. simpl snd.
  unfold try_catch at 1. unfold try_catch at 1.
  unfold bind at 1. unfold fs_readFile at 1.
  rewrite Hread, Hfile. simpl.
  unfold bind. rewrite persist_run, Hpersist. reflexivity.
Qed.

Lemma fmap_run {T A B} (f : A -> B) (c : M T A) this w :
  fmap f c this w
  = match c this w with
    | (Returns a, this', w') => (Returns (f a), this', w')
    | (Throws e, this', w') => (Throws e, this', w')
    end.
Proof. unfold fmap, bind, ret. destruct (c this w) as [[[a|e] t] w']; reflexivity. Qed.

Lemma listUsers_run this w :
  FileStorage.listUsers this w = (Returns (JSMap.values (FileStorage.users this)), this, w).
Proof. reflexivity. Qed.

Lemma getUser_run i this w :
  FileStorage.getUser i this w = (Returns (JSMap.get i (FileStorage.users this)), this, w).
Proof. reflexivity. Qed.

Lemma mem_updateUser_run i patch m w :
  MemStorage.updateUser i patch (MemStorage.mk m) w
  = match JSMap.get i m with
    | None => (Returns None, MemStorage.mk m, w)
    | Some existing =>
        (Returns (Some (spread_patch existing patch)),
         MemStorage.mk (JSMap.set i (spread_patch existing patch) m), w)
    end.
Proof.
  unfold MemStorage.updateUser, MemStorage.this_users, MemStorage.put_users,
    bind, ret. simpl.
  destruct (JSMap.get i m); reflexivity.
Qed.

End MethodFacts.

(** ** Runs of the two stores side by side *)
Section RunFacts.

Lemma no_fault_persist w : no_fs_fault w -> persist_fault w = None.
Proof. intros H. unfold persist_fault. now rewrite !H. Qed.

(** One operation on two stores that mirror each other. *)
Lemma exec_mirrors op mem wm fs wf :
  mirrors mem wm fs wf ->
  result (exec op mem wm) = result (exec op fs wf) /\
  mirrors (object (exec op mem wm)) (world (exec op mem wm))
          (object (exec op fs wf)) (world (exec op fs wf)).
Proof.
  intros (Hu & He & Hd & Hnf & Hsync).
  destruct mem as [m]. destruct fs as [m' path]. simpl in Hu. subst m'.
  pose proof (no_fault_persist wf Hnf) as Hp.
  destruct op; unfold exec; simpl; rewrite !fmap_run.
  - split; [reflexivity|]. repeat split; assumption.
  - split; [reflexivity|]. repeat split; assumption.
  - rewrite createUser_run. cbv zeta. rewrite Hp.
    unfold MemStorage.createUser, MemStorage.this_users, MemStorage.put_users,
      randomUUID, bind, ret. simpl.
    rewrite He, Hd. split; [reflexivity|].
    repeat split; simpl; auto.
  - rewrite updateUser_run. simpl.
    unfold MemStorage.updateUser, MemStorage.this_users, MemStorage.put_users,
      bind, ret. simpl.
    destruct (JSMap.get i m) as [existing|].
    + rewrite Hp. split; [reflexivity|]. repeat split; simpl; auto.
    + split; [reflexivity|]. repeat split; assumption.
  - rewrite deleteUser_run. cbv zeta. simpl.
    unfold MemStorage.deleteUser, MemStorage.this_users, MemStorage.put_users,
      JSMap.delete, bind, ret. simpl.
    destruct (JSMap.has i m) eqn:Eh.
    + rewrite Hp. split; [reflexivity|]. repeat split; simpl; auto.
    + split; [reflexivity|]. repeat split; simpl; auto.
      unfold snapshot_in_sync. simpl.
      apply has_false_get in Eh. now rewrite (remove_absent _ _ Eh).
  - split; [reflexivity|]. repeat split; assumption.
Qed.

Lemma run_mirrors ops : forall mem wm fs wf,
  mirrors mem wm fs wf ->
  result (run ops mem wm) = result (run ops fs wf) /\
  mirrors (object (run ops mem wm)) (world (run ops mem wm))
          (object (run ops fs wf)) (world (run ops fs wf)).
Proof.
  induction ops as [|op rest IH]; intros mem wm fs wf Hm.
  - split; [reflexivity | exact Hm].
  - destruct (exec_mirrors op mem wm fs wf Hm) as [Hr Hm'].
    destruct (IH _ _ _ _ Hm') as [Hrs Hm''].
    simpl. unfold result at 1 3. simpl. unfold result in Hrs. rewrite Hr, Hrs.
    split; [reflexivity | exact Hm''].
Qed.

(** The volatile store does not touch the disk. *)
Lemma mem_exec_file op (mem : MemStorage.t) w :
  file (world (exec op mem w)) = file w.
Proof.
  destruct mem as [m]. destruct op; try reflexivity.
  unfold exec. simpl. rewrite fmap_run.
  unfold MemStorage.updateUser, MemStorage.this_users, MemStorage.put_users,
    bind, ret. simpl.
  destruct (JSMap.get i m); reflexivity.
Qed.

Lemma mem_run_file ops : forall (mem : MemStorage.t) w,
  file (world (run ops mem w)) = file w.
Proof.
  induction ops as [|op rest IH]; intros mem w; [reflexivity|].
  simpl. unfold world at 1. simpl. fold (world (run rest (object (exec op mem w)) (world (exec op mem w)))).
  now rewrite IH, mem_exec_file.
Qed.

Lemma new_mirrors path w :
  file w = None -> no_fs_fault w ->
  mirrors MemStorage.new w (fst (FileStorage.new path w)) (snd (FileStorage.new path w)).
Proof.
  intros Hfile Hnf.
  assert (Hp : persist_fault (tick w) = None) by (unfold persist_fault; simpl; now rewrite !Hnf).
  pose proof (new_users path w) as Hu.
  pose proof (new_world_bootstrap path w Hfile (Hnf _) Hp) as Hw.
  unfold loaded_users in Hu. rewrite Hnf, Hfile in Hu.
  unfold mirrors. rewrite Hw. unfold snapshot_in_sync. rewrite Hu.
  repeat split. exact Hnf.
Qed.
End RunFacts.

(** ** The collection is keyed by id throughout *)
Section InvariantFacts.

Lemma well_keyed_empty : well_keyed JSMap.empty.
Proof. split; constructor. Qed.

Lemma well_keyed_set u m : well_keyed m -> well_keyed (JSMap.set (id u) u m).
Proof. intros [Hwf Hk]. split; [now apply wf_set | now apply keyed_set]. Qed.

Lemma well_keyed_remove k m : well_keyed m -> well_keyed (JSMap.remove k m).
Proof. intros [Hwf Hk]. split; [now apply wf_remove | now apply keyed_remove]. Qed.

Lemma well_keyed_update i existing patch m :
  patch_keeps_id i patch = true ->
  well_keyed m -> JSMap.get i m = Some existing ->
  well_keyed (JSMap.set i (spread_patch existing patch) m).
Proof.
  intros Hkeep H Hg.
  replace i with (id (spread_patch existing patch)) at 1.
  - now apply well_keyed_set.
  - simpl. unfold patch_keeps_id in Hkeep.
    destruct (patch_id patch) as [i'|].
    + now apply String.eqb_eq.
    + eapply keyed_get; [apply H | exact Hg].
Qed.

Lemma well_keyed_loaded w : well_keyed (loaded_users w).
Proof.
  unfold loaded_users.
  destruct (fs_fault w (fs_calls w)); [apply well_keyed_empty|].
  destruct (file w) as [raw|]; [|apply well_keyed_empty].
  destruct (JSON.parse raw) as [arr|]; [|apply well_keyed_empty].
  split; [apply wf_of_entries | apply keyed_of_entries].
Qed.

Lemma mem_exec_well_keyed op (mem : MemStorage.t) w :
  op_keeps_id op = true ->
  well_keyed (MemStorage.users mem) ->
  well_keyed (MemStorage.users (object (exec op mem w))).
Proof.
  intros Hkeep H. destruct mem as [m]. simpl in H.
  destruct op; unfold exec; simpl; try rewrite fmap_run; try exact H.
  - apply (well_keyed_set (spread_with_id insertUser (entropy w (drawn w)))), H.
  - unfold MemStorage.updateUser, MemStorage.this_users, MemStorage.put_users,
      bind, ret. simpl.
    destruct (JSMap.get i m) as [existing|] eqn:Eg; simpl; [|exact H].
    now apply well_keyed_update.
  - apply well_keyed_remove, H.
Qed.

Lemma file_exec_well_keyed op (fs : FileStorage.t) w :
  op_keeps_id op = true ->
  well_keyed (FileStorage.users fs) ->
  well_keyed (FileStorage.users (object (exec op fs w))).
Proof.
  intros Hkeep H. destruct fs as [m path]. simpl in H.
  destruct op; unfold exec; simpl; try rewrite fmap_run; try exact H.
  - rewrite createUser_run. cbv zeta.
    destruct (persist_fault w); simpl;
      apply (well_keyed_set (spread_with_id insertUser (entropy w (drawn w)))), H.
  - rewrite updateUser_run. simpl.
    destruct (JSMap.get i m) as [existing|] eqn:Eg; simpl; [|exact H].
    destruct (persist_fault w); simpl; now apply well_keyed_update.
  - rewrite deleteUser_run. cbv zeta. simpl.
    destruct (JSMap.has i m); [destruct (persist_fault w)|]; simpl;
      apply well_keyed_remove, H.
Qed.

Lemma mem_run_well_keyed ops : forall (mem : MemStorage.t) w,
  forallb op_keeps_id ops = true ->
  well_keyed (MemStorage.users mem) ->
  well_keyed (MemStorage.users (object (run ops mem w))).
Proof.
  induction ops as [|op rest IH]; intros mem w Hkeep H; [exact H|].
  simpl in Hkeep. apply andb_true_iff in Hkeep. destruct Hkeep as [Hop Hrest].
  apply (IH (object (exec op mem w)) (world (exec op mem w)) Hrest).
  now apply mem_exec_well_keyed.
Qed.

Lemma file_run_well_keyed ops : forall (fs : FileStorage.t) w,
  forallb op_keeps_id ops = true ->
  well_keyed (FileStorage.users fs) ->
  well_keyed (FileStorage.users (object (run ops fs w))).
Proof.
  induction ops as [|op rest IH]; intros fs w Hkeep H; [exact H|].
  simpl in Hkeep. apply andb_true_iff in Hkeep. destruct Hkeep as [Hop Hrest].
  apply (IH (object (exec op fs w)) (world (exec op fs w)) Hrest).
  now apply file_exec_well_keyed.
Qed.

Lemma well_keyed_get i m :
  well_keyed m -> absent_or_has_id i (Returns (JSMap.get i m)).
Proof.
  intros [_ Hk]. simpl. destruct (JSMap.get i m) as [u|] eqn:Eg; [|exact I].
  eapply keyed_get; eauto.
Qed.

End InvariantFacts.

(** ** Distinct identifiers across the [createUser] calls of a run

    For any implementation of [IStorage] whose operations leave the
    generator alone, except [createUser], which draws once. *)
Section CreatedIds.

Context {T : Type} `{IStorage T}.

Hypothesis exec_entropy : forall op (this : T) w,
  entropy (world (exec op this w)) = entropy w.
Hypothesis exec_drawn : forall op (this : T) w,
  drawn w <= drawn (world (exec op this w)).
Hypothesis exec_created : forall op (this : T) w u,
  result (exec op this w) = Returns (RCreated u) ->
  id u = entropy w (drawn w) /\ drawn (world (exec op this w)) = S (drawn w).

Lemma result_run_cons op rest (this : T) w :
  result (run (op :: rest) this w)
  = result (exec op this w)
    :: result (run rest (object (exec op this w)) (world (exec op this w))).
Proof. reflexivity. Qed.

Lemma created_ids_drawn ops : forall (this : T) w x,
  In x (created_ids (result (run ops this w))) ->
  exists n, drawn w <= n /\ x = entropy w n.
Proof.
  induction ops as [|op rest IH]; intros this w x; [simpl; tauto|].
  rewrite result_run_cons.
  assert (Hrest : In x (created_ids (result (run rest (object (exec op this w)) (world (exec op this w))))) ->
                  exists n, drawn w <= n /\ x = entropy w n).
  { intros Hin. destruct (IH _ _ _ Hin) as (n & Hn & Hx).
    exists n. rewrite exec_entropy in Hx. split; [|exact Hx].
    pose proof (exec_drawn op this w). lia. }
  destruct (result (exec op this w)) as [[u|u|b|l]|e] eqn:Er;
    simpl; try exact Hrest.
  intros [Hx|Hin]; auto.
  exists (drawn w). split; [lia|].
  destruct (exec_created _ _ _ _ Er) as [Hid _]. congruence.
Qed.

Lemma created_ids_NoDup ops : forall (this : T) w,
  (forall a b, entropy w a = entropy w b -> a = b) ->
  NoDup (created_ids (result (run ops this w))).
Proof.
  induction ops as [|op rest IH]; intros this w Hinj; [constructor|].
  rewrite result_run_cons.
  assert (Hrest : NoDup (created_ids (result (run rest (object (exec op this w)) (world (exec op this w)))))).
  { apply IH. rewrite exec_entropy. exact Hinj. }
  destruct (result (exec op this w)) as [[u|u|b|l]|e] eqn:Er;
    simpl; try exact Hrest.
  constructor; [|exact Hrest].
  intros Hin. apply created_ids_drawn in Hin. destruct Hin as (n & Hn & Hx).
  destruct (exec_created _ _ _ _ Er) as [Hid Hd].
  rewrite exec_entropy, Hd, Hid in *.
  apply Hinj in Hx. lia.
Qed.

End CreatedIds.

(** ** The two stores and the generator *)
Section GeneratorFacts.

Lemma uuid_of_inj a : forall b, uuid_of a = uuid_of b -> a = b.
Proof.
  induction a as [|a IH]; intros [|b]; simpl; try discriminate; auto.
  intros [= Hab]. f_equal. now apply IH.
Qed.

Lemma entropy_persist_failed w : entropy (persist_failed w) = entropy w.
Proof. unfold persist_failed. now destruct (fs_fault w (fs_calls w)). Qed.

Lemma drawn_persist_failed w : drawn (persist_failed w) = drawn w.
Proof. unfold persist_failed. now destruct (fs_fault w (fs_calls w)). Qed.

(** Where an operation leaves the generator: [createUser] draws once,
    the other operations do not draw. *)
Lemma mem_exec_generator op (mem : MemStorage.t) w :
  entropy (world (exec op mem w)) = entropy w /\
  drawn (world (exec op mem w))
  = match op with CreateUser _ => S (drawn w) | _ => drawn w end.
Proof.
  destruct mem as [m]. destruct op; try (split; reflexivity).
  unfold exec. simpl. rewrite fmap_run.
  unfold MemStorage.updateUser, MemStorage.this_users, MemStorage.put_users,
    bind, ret. simpl.
  destruct (JSMap.get i m); split; reflexivity.
Qed.

Lemma file_exec_generator op (fs : FileStorage.t) w :
  entropy (world (exec op fs w)) = entropy w /\
  drawn (world (exec op fs w))
  = match op with CreateUser _ => S (drawn w) | _ => drawn w end.
Proof.
  destruct op; try (split; reflexivity); unfold exec; simpl; rewrite fmap_run.
  - rewrite createUser_run. cbv zeta.
    destruct (persist_fault w); simpl; [|split; reflexivity].
    now rewrite entropy_persist_failed, drawn_persist_failed.
  - rewrite updateUser_run.
    destruct (JSMap.get i (FileStorage.users fs)); [|split; reflexivity].
    cbv zeta. destruct (persist_fault w); simpl; [|split; reflexivity].
    now rewrite entropy_persist_failed, drawn_persist_failed.
  - rewrite deleteUser_run. cbv zeta.
    destruct (JSMap.has i (FileStorage.users fs)); [|split; reflexivity].
    destruct (persist_fault w); simpl; [|split; reflexivity].
    now rewrite entropy_persist_failed, drawn_persist_failed.
Qed.

(** A record a store hands out as created carries the identifier drawn. *)
Lemma mem_exec_created op (mem : MemStorage.t) w u :
  result (exec op mem w) = Returns (RCreated u) ->
  id u = entropy w (drawn w) /\ drawn (world (exec op mem w)) = S (drawn w).
Proof.
  destruct mem as [m]. destruct op; try discriminate.
  - intros [= <-]. split; reflexivity.
  - unfold exec. simpl. rewrite fmap_run.
    unfold MemStorage.updateUser, MemStorage.this_users, MemStorage.put_users,
      bind, ret. simpl.
    destruct (JSMap.get i m); discriminate.
Qed.

Lemma file_exec_created op (fs : FileStorage.t) w u :
  result (exec op fs w) = Returns (RCreated u) ->
  id u = entropy w (drawn w) /\ drawn (world (exec op fs w)) = S (drawn w).
Proof.
  intros Hr. split.
  - destruct op; try discriminate; revert Hr; unfold exec; simpl;
      rewrite fmap_run.
    + rewrite createUser_run. cbv zeta.
      destruct (persist_fault w); simpl; [discriminate|].
      now intros [= <-].
    + rewrite updateUser_run.
      destruct (JSMap.get i (FileStorage.users fs)); [|discriminate].
      cbv zeta. destruct (persist_fault w); discriminate.
    + rewrite deleteUser_run. cbv zeta.
      destruct (JSMap.has i (FileStorage.users fs)); [|discriminate].
      destruct (persist_fault w); discriminate.
  - destruct op; try discriminate.
    + apply (file_exec_generator (CreateUser insertUser)).
    + exfalso. revert Hr. unfold exec. simpl. rewrite fmap_run, updateUser_run.
      destruct (JSMap.get i (FileStorage.users fs)); [|discriminate].
      cbv zeta. destruct (persist_fault w); discriminate.
    + exfalso. revert Hr. unfold exec. simpl. rewrite fmap_run, deleteUser_run.
      cbv zeta.
      destruct (JSMap.has i (FileStorage.users fs)); [|discriminate].
      destruct (persist_fault w); discriminate.
Qed.

Lemma mem_created_ids_NoDup ops (mem : MemStorage.t) w :
  (forall a b, entropy w a = entropy w b -> a = b) ->
  NoDup (created_ids (result (run ops mem w))).
Proof.
  apply created_ids_NoDup.
  - intros op this w'. apply mem_exec_generator.
  - intros op this w'. rewrite (proj2 (mem_exec_generator op this w')).
    destruct op; lia.
  - apply mem_exec_created.
Qed.

Lemma file_created_ids_NoDup ops (fs : FileStorage.t) w :
  (forall a b, entropy w a = entropy w b -> a = b) ->
  NoDup (created_ids (result (run ops fs w))).
Proof.
  apply created_ids_NoDup.
  - intros op this w'. apply file_exec_generator.
  - intros op this w'. rewrite (proj2 (file_exec_generator op this w')).
    destruct op; lia.
  - apply file_exec_created.
Qed.

End GeneratorFacts.

Ltac run_file_op :=
  unfold exec; simpl; rewrite fmap_run;
  first [rewrite createUser_run | rewrite updateUser_run | rewrite deleteUser_run];
  cbv zeta.

(** ** A record at its place in the collection *)
Section PlaceFacts.

Context {V : Type}.
Implicit Types (before after : list (string * V)).

Lemma get_at i (x : V) before after :
  ~ In i (map fst before) ->
  JSMap.get i (before ++ (i, x) :: after)%list = Some x.
Proof.
  induction before as [|[k v] r IH]; simpl; intros Hb.
  - now rewrite String.eqb_refl.
  - destruct (String.eqb k i) eqn:E.
    + apply String.eqb_eq in E. exfalso. auto.
    + apply IH. auto.
Qed.

Lemma set_at i (x v : V) before after :
  ~ In i (map fst before) ->
  JSMap.set i v (before ++ (i, x) :: after)%list
  = (before ++ (i, v) :: after)%list.
Proof.
  induction before as [|[k v'] r IH]; simpl; intros Hb.
  - now rewrite String.eqb_refl.
  - destruct (String.eqb k i) eqn:E.
    + apply String.eqb_eq in E. exfalso. auto.
    + rewrite IH; auto.
Qed.

Lemma remove_at i (x : V) before after :
  ~ In i (map fst before) -> ~ In i (map fst after) ->
  JSMap.remove i (before ++ (i, x) :: after)%list = (before ++ after)%list.
Proof.
  intros Hb Ha. induction before as [|[k v'] r IH]; simpl.
  - rewrite String.eqb_refl. apply remove_absent. now apply get_None_keys.
  - simpl in Hb. destruct (String.eqb k i) eqn:E.
    + apply String.eqb_eq in E. exfalso. auto.
    + rewrite IH; auto.
Qed.

End PlaceFacts.

(** * The properties *)

(** ** C1: the snapshot after a mutating call *)

(** C1, as amended.  On the durable store, a call of [createUser],
    [updateUser] or [deleteUser] that changes the collection ([createUser]
    always, the other two when the id is present) returns only when its
    [mkdir] and [writeFile] did not fail, and then the snapshot file holds
    the serialization of the collection in memory.  A call of [updateUser]
    or [deleteUser] on an absent id returns, absent and [false], without
    writing: it leaves the store and the disk as they were. *)
Theorem snapshot_written_before_changing_call_returns
    (op : Op) (this : FileStorage.t) (w : World) :
  is_mutating_call op = true ->
  let r := exec op this w in
  if changes_collection op (FileStorage.users this) then
    forall reply, result r = Returns reply ->
      persist_fault w = None /\ snapshot_in_sync (object r) (world r)
  else
    result r = Returns (match op with
                        | DeleteUser _ => RBool false
                        | _ => RUser None
                        end) /\
    object r = this /\ world r = w.
Proof.
  intros Hmut. destruct op; try discriminate Hmut; cbv zeta.
  - simpl changes_collection. cbv iota. intros reply. run_file_op.
    destruct (persist_fault w); simpl; intros H; [discriminate|].
    split; reflexivity.
  - simpl changes_collection. unfold JSMap.has. run_file_op.
    destruct (JSMap.get i (FileStorage.users this)) as [existing|] eqn:Eg.
    + intros reply. destruct (persist_fault w); simpl; intros H; [discriminate|].
      split; reflexivity.
    + split; [reflexivity | split; reflexivity].
  - simpl changes_collection. run_file_op.
    destruct (JSMap.has i (FileStorage.users this)) eqn:Eh.
    + intros reply. destruct (persist_fault w); simpl; intros H; [discriminate|].
      split; reflexivity.
    + simpl. apply has_false_get in Eh. rewrite (remove_absent _ _ Eh).
      destruct this. split; [reflexivity | split; reflexivity].
Qed.

(** A store booted on a fresh disk: [createUser] returns the record and the
    file holds the snapshot. *)
Lemma snapshot_written_before_changing_call_returns_witness :
  let s := FileStorage.new None fresh_disk in
  let r := exec (CreateUser (mkInsertUser "alice" "h1")) (fst s) (snd s) in
  result r = Returns (RCreated (mkUser "0" "alice" "h1")) /\
  persist_fault (snd s) = None /\ snapshot_in_sync (object r) (world r).
Proof.
  cbv zeta. split; [reflexivity|].
  exact (snapshot_written_before_changing_call_returns
           (CreateUser (mkInsertUser "alice" "h1"))
           (fst (FileStorage.new None fresh_disk))
           (snd (FileStorage.new None fresh_disk))
           eq_refl _ eq_refl).
Defined.

(** C1, as stated, fails.  The file holds two records with the id 7; the
    store that loads it keeps one.  [deleteUser] of an id that is absent
    then returns [false] without writing, and the file, still with its two
    records, is not the serialization of the collection in memory. *)
Lemma snapshot_stale_after_deleteUser_of_absent_id :
  let s := FileStorage.new None (disk_with (JSON.stringify twice_seven)) in
  let r := FileStorage.deleteUser "nobody" (fst s) (snd s) in
  result r = Returns false /\
  JSMap.values (FileStorage.users (object r)) = [mkUser "7" "bob" "h2"] /\
  file (world r) = Some (JSON.stringify twice_seven) /\
  ~ snapshot_in_sync (object r) (world r).
Proof.
  cbv zeta. split; [reflexivity|]. split; [reflexivity|]. split; [reflexivity|].
  unfold snapshot_in_sync. intros H.
  apply (f_equal (option_map String.length)) in H.
  vm_compute in H. discriminate H.
Qed.

(** ** C2: a persist fault *)

(** C2.  On the durable store, when the [mkdir] or the [writeFile] of the
    persist fails with [e]: [createUser] throws the system error [e], and
    the collection holds the new record under the id drawn, added at the
    end when the id was not in use; [updateUser] of an id that is present
    throws [e], and the collection holds the merged record in the place of
    the old one; [deleteUser] of an id that is present throws [e], and the
    collection is without the record.  Nothing is rolled back. *)
Theorem persist_fault_fails_call_and_keeps_mutation
    (m0 before after : list (string * User)) (i : string) (existing : User)
    (patch : PartialInsertUser) (insertUser : InsertUser) (path : string)
    (w : World) (e : errno) :
  persist_fault w = Some e ->
  ~ In i (map fst before) ->
  ~ In i (map fst after) ->
  let m := (before ++ (i, existing) :: after)%list in
  let uuid := entropy w (drawn w) in
  let created := mkUser uuid (ins_username insertUser) (ins_password insertUser) in
  let merged :=
    mkUser (match patch_id patch with Some i' => i' | None => id existing end)
           (match patch_username patch with Some n => n | None => username existing end)
           (match patch_password patch with Some p => p | None => password existing end) in
  let rc := FileStorage.createUser insertUser (FileStorage.mk m0 path) w in
  let ru := FileStorage.updateUser i patch (FileStorage.mk m path) w in
  let rd := FileStorage.deleteUser i (FileStorage.mk m path) w in
  (result rc = Throws (SystemError e) /\
   In (uuid, created) (FileStorage.users (object rc)) /\
   (~ In uuid (map fst m0) ->
    FileStorage.users (object rc) = (m0 ++ [(uuid, created)])%list)) /\
  (result ru = Throws (SystemError e) /\
   FileStorage.users (object ru) = (before ++ (i, merged) :: after)%list) /\
  (result rd = Throws (SystemError e) /\
   FileStorage.users (object rd) = (before ++ after)%list).
Proof.
  intros Hf Hb Ha. cbv zeta.
  rewrite createUser_run, updateUser_run, deleteUser_run. cbv zeta.
  cbn [FileStorage.users FileStorage.filePath].
  unfold JSMap.has. rewrite (get_at i existing before after Hb), Hf.
  unfold result, object. cbn [fst snd FileStorage.users].
  split; [|split].
  - split; [reflexivity|]. split.
    + apply get_Some_In, get_set_same.
    + intros Hfresh. apply set_absent. now apply get_None_keys.
  - split; [reflexivity|]. now apply set_at.
  - split; [reflexivity|]. now apply remove_at.
Qed.

(** The disk is full at the write of each call: bob and cy are stored, and
    alice is created, bob renamed, bob deleted. *)
Lemma persist_fault_fails_call_and_keeps_mutation_witness :
  let w := disk_full_at 1 fresh_disk in
  let this := FileStorage.mk bob_and_cy "users.json" in
  let rc := FileStorage.createUser (mkInsertUser "alice" "h1") this w in
  let ru := FileStorage.updateUser "7" (mkPatch (Some "rob") None) this w in
  let rd := FileStorage.deleteUser "7" this w in
  (result rc = Throws (SystemError ENOSPC) /\
   FileStorage.users (object rc)
   = [("7", mkUser "7" "bob" "h2"); ("8", mkUser "8" "cy" "h3");
      ("0", mkUser "0" "alice" "h1")]) /\
  (result ru = Throws (SystemError ENOSPC) /\
   FileStorage.users (object ru)
   = [("7", mkUser "7" "rob" "h2"); ("8", mkUser "8" "cy" "h3")]) /\
  (result rd = Throws (SystemError ENOSPC) /\
   FileStorage.users (object rd) = [("8", mkUser "8" "cy" "h3")]).
Proof.
  assert (Hb : ~ In "7" (map fst (@nil (string * User)))) by (intros []).
  assert (Ha : ~ In "7" (map fst [("8", mkUser "8" "cy" "h3")])).
  { simpl. intuition discriminate. }
  assert (Hfresh : ~ In "0" (map fst bob_and_cy)).
  { simpl. intuition discriminate. }
  pose proof (persist_fault_fails_call_and_keeps_mutation bob_and_cy
                [] [("8", mkUser "8" "cy" "h3")] "7" (mkUser "7" "bob" "h2")
                (mkPatch (Some "rob") None) (mkInsertUser "alice" "h1")
                "users.json" (disk_full_at 1 fresh_disk) ENOSPC
                eq_refl Hb Ha) as H.
  cbv zeta in H. destruct H as ((Hc & _ & Hcu) & Hu & Hd).
  split; [split; [exact Hc | exact (Hcu Hfresh)]|].
  split; [exact Hu | exact Hd].
Defined.

(** ** C3: first run *)

(** C3.  A durable store constructed where the snapshot file does not exist
    (the read fails as not found) is empty once ready: [listUsers] returns
    the empty array.  When the [mkdir] and the [writeFile] of the bootstrap
    do not fail, the file then holds the text of the empty array. *)
Theorem missing_file_bootstraps_empty_snapshot (path : option string) (w : World) :
  file w = None ->
  fs_fault w (fs_calls w) = None ->
  let s := FileStorage.new path w in
  FileStorage.users (fst s) = JSMap.empty /\
  result (FileStorage.listUsers (fst s) (snd s)) = Returns [] /\
  (persist_fault (tick w) = None ->
     file (snd s) = Some (JSON.stringify []) /\
     JSON.stringify [] = "[]" /\ JSON.parse "[]" = Some []).
Proof.
  intros Hfile Hread. cbv zeta.
  assert (Hu : FileStorage.users (fst (FileStorage.new path w)) = JSMap.empty).
  { rewrite new_users. unfold loaded_users. now rewrite Hread, Hfile. }
  split; [exact Hu|]. split.
  - rewrite listUsers_run, Hu. reflexivity.
  - intros Hp. rewrite (new_world_bootstrap path w Hfile Hread Hp).
    repeat split.
Qed.

Lemma missing_file_bootstraps_empty_snapshot_witness :
  let s := FileStorage.new None fresh_disk in
  result (FileStorage.listUsers (fst s) (snd s)) = Returns [] /\
  file (snd s) = Some "[]".
Proof.
  pose proof (missing_file_bootstraps_empty_snapshot None fresh_disk eq_refl eq_refl)
    as [_ [Hlist Hfile]].
  split; [exact Hlist | exact (proj1 (Hfile eq_refl))].
Defined.

(** ** C4: duplicate ids in the file *)

(** C4.  When the snapshot file is read and parses as the array [arr], then
    for every id that occurs in [arr] the store, once ready, holds exactly
    one record with that id, the last one of [arr] with it: [listUsers]
    has that record and no other with the id, and [getUser] returns it. *)
Theorem duplicate_ids_in_file_last_wins
    (path : option string) (w : World) (raw : string) (arr : list User)
    (i : string) (u : User) :
  file w = Some raw ->
  fs_fault w (fs_calls w) = None ->
  JSON.parse raw = Some arr ->
  Array_findLast (has_id i) arr = Some u ->
  let s := FileStorage.new path w in
  filter (has_id i) (JSMap.values (FileStorage.users (fst s))) = [u] /\
  (exists l, result (FileStorage.listUsers (fst s) (snd s)) = Returns l /\
             filter (has_id i) l = [u]) /\
  result (FileStorage.getUser i (fst s) (snd s)) = Returns (Some u).
Proof.
  intros Hfile Hread Hparse Hlast. cbv zeta.
  assert (Hu : FileStorage.users (fst (FileStorage.new path w))
               = JSMap.of_entries (entries_of arr)).
  { rewrite new_users. unfold loaded_users. now rewrite Hread, Hfile, Hparse. }
  assert (Hf : filter (has_id i)
                 (JSMap.values (FileStorage.users (fst (FileStorage.new path w))))
               = [u]).
  { rewrite Hu, filter_has_id.
    - now rewrite get_of_entries, Hlast.
    - apply wf_of_entries.
    - apply keyed_of_entries. }
  split; [exact Hf|]. split.
  - rewrite listUsers_run. eexists. split; [reflexivity | exact Hf].
  - rewrite getUser_run, Hu, get_of_entries, Hlast. reflexivity.
Qed.

(** The file with ann and bob under the id 7: bob, the later, stays. *)
Lemma duplicate_ids_in_file_last_wins_witness :
  let s := FileStorage.new None (disk_with (JSON.stringify twice_seven)) in
  result (FileStorage.listUsers (fst s) (snd s)) = Returns [mkUser "7" "bob" "h2"] /\
  filter (has_id "7") (JSMap.values (FileStorage.users (fst s)))
  = [mkUser "7" "bob" "h2"].
Proof.
  split; [reflexivity|].
  exact (proj1 (duplicate_ids_in_file_last_wins None
                  (disk_with (JSON.stringify twice_seven))
                  (JSON.stringify twice_seven) twice_seven "7"
                  (mkUser "7" "bob" "h2")
                  eq_refl eq_refl eq_refl eq_refl)).
Defined.

(** ** C5: [updateUser] *)

(** C5, as amended.  In both stores, [updateUser(i, patch)] on a collection
    without [i] returns absent and leaves the store and the world as they
    were.  With [existing] under [i], the merged record takes each field
    from the patch when the patch has it and from [existing] otherwise, and
    is stored under [i], in the place of [existing]; the volatile store
    returns it, and so does the durable store unless its persist fails.
    The id of the merged record is the id of [existing] when the patch
    carries no [id]; an [id] that the patch carries replaces it. *)
Theorem updateUser_merges_patch_or_returns_absent
    (i : string) (patch : PartialInsertUser)
    (m before after : list (string * User)) (existing : User)
    (path : string) (w : World) :
  (~ In i (map fst m) ->
   MemStorage.updateUser i patch (MemStorage.mk m) w
   = (Returns None, MemStorage.mk m, w) /\
   FileStorage.updateUser i patch (FileStorage.mk m path) w
   = (Returns None, FileStorage.mk m path, w)) /\
  (~ In i (map fst before) ->
   let stored := (before ++ (i, existing) :: after)%list in
   let merged :=
     mkUser (match patch_id patch with Some i' => i' | None => id existing end)
            (match patch_username patch with Some n => n | None => username existing end)
            (match patch_password patch with Some p => p | None => password existing end) in
   let rm := MemStorage.updateUser i patch (MemStorage.mk stored) w in
   let rf := FileStorage.updateUser i patch (FileStorage.mk stored path) w in
   result rm = Returns (Some merged) /\
   MemStorage.users (object rm) = (before ++ (i, merged) :: after)%list /\
   result rf = match persist_fault w with
               | None => Returns (Some merged)
               | Some e => Throws (SystemError e)
               end /\
   FileStorage.users (object rf) = (before ++ (i, merged) :: after)%list /\
   (patch_id patch = None -> id merged = id existing)).
Proof.
  split.
  - intros Habsent. apply get_None_keys in Habsent.
    rewrite updateUser_run, mem_updateUser_run.
    cbn [FileStorage.users]. rewrite Habsent. split; reflexivity.
  - intros Hb. cbv zeta.
    rewrite updateUser_run, mem_updateUser_run.
    cbn [FileStorage.users FileStorage.filePath].
    rewrite (get_at i existing before after Hb). cbv zeta.
    unfold spread_patch. rewrite (set_at i existing _ before after Hb).
    split; [reflexivity|]. split; [reflexivity|]. split.
    + destruct (persist_fault w); reflexivity.
    + split; [destruct (persist_fault w); reflexivity|].
      intros Hnone. simpl. now rewrite Hnone.
Qed.

(** bob and cy are stored: a patch with a password changes the password of
    bob and nothing else, and a patch for an id that is absent changes
    nothing. *)
Lemma updateUser_merges_patch_or_returns_absent_witness :
  let patch := mkPatch None (Some "h9") in
  let rf := FileStorage.updateUser "7" patch
              (FileStorage.mk bob_and_cy "users.json") fresh_disk in
  (result rf = Returns (Some (mkUser "7" "bob" "h9")) /\
   FileStorage.users (object rf)
   = [("7", mkUser "7" "bob" "h9"); ("8", mkUser "8" "cy" "h3")]) /\
  MemStorage.updateUser "9" patch (MemStorage.mk bob_and_cy) fresh_disk
  = (Returns None, MemStorage.mk bob_and_cy, fresh_disk).
Proof.
  assert (Hb : ~ In "7" (map fst (@nil (string * User)))) by (intros []).
  assert (Habsent : ~ In "9" (map fst bob_and_cy)).
  { simpl. intuition discriminate. }
  pose proof (updateUser_merges_patch_or_returns_absent "7"
                (mkPatch None (Some "h9")) bob_and_cy
                [] [("8", mkUser "8" "cy" "h3")] (mkUser "7" "bob" "h2")
                "users.json" fresh_disk) as H7.
  pose proof (updateUser_merges_patch_or_returns_absent "9"
                (mkPatch None (Some "h9")) bob_and_cy
                [] [] (mkUser "7" "bob" "h2") "users.json" fresh_disk) as H9.
  destruct H7 as [_ Hpresent]. destruct H9 as [Hnone _].
  cbv zeta in Hpresent.
  destruct (Hpresent Hb) as (_ & _ & Hres & Husers & _).
  split; [split; [exact Hres | exact Husers]|].
  exact (proj1 (Hnone Habsent)).
Defined.

(** C5, as stated, fails.  alice is stored under the id 0; a patch that
    carries the id evil, which a [User] given as the patch would, makes
    both stores return and keep, under 0, a record whose id is evil. *)
Lemma updateUser_with_id_in_patch_alters_id :
  let m := [("0", mkUser "0" "alice" "h1")] in
  let patch := mkPatchObject None None (Some "evil") in
  let rm := MemStorage.updateUser "0" patch (MemStorage.mk m) fresh_disk in
  let rf := FileStorage.updateUser "0" patch (FileStorage.mk m "users.json")
              fresh_disk in
  result rm = Returns (Some (mkUser "evil" "alice" "h1")) /\
  result rf = Returns (Some (mkUser "evil" "alice" "h1")) /\
  JSMap.get "0" (MemStorage.users (object rm)) = Some (mkUser "evil" "alice" "h1") /\
  JSMap.get "0" (FileStorage.users (object rf)) = Some (mkUser "evil" "alice" "h1") /\
  id (mkUser "evil" "alice" "h1") <> id (mkUser "0" "alice" "h1").
Proof.
  cbv zeta. repeat split; try reflexivity. discriminate.
Qed.

(** ** C6: [createUser] *)

(** C6.  In both stores, [createUser(insertUser)] draws the identifier from
    the generator, not from its argument, stores under it the record of the
    given fields and that id, and returns that record: always in the
    volatile store, and in the durable store unless its persist fails;
    [getUser] on the id then returns the record.  When the identifier drawn
    is not in use, the record is added and every record stays; and when the
    generator never repeats, no two [createUser] calls of a run return the
    same id. *)
Theorem createUser_stores_and_returns_record_with_drawn_id
    (insertUser : InsertUser) (m : JSMap.t User) (path : string) (w : World)
    (ops : list Op) :
  let i := entropy w (drawn w) in
  let user := spread_with_id insertUser i in
  let rm := MemStorage.createUser insertUser (MemStorage.mk m) w in
  let rf := FileStorage.createUser insertUser (FileStorage.mk m path) w in
  id user = i /\
  username user = ins_username insertUser /\
  password user = ins_password insertUser /\
  result rm = Returns user /\
  MemStorage.users (object rm) = JSMap.set i user m /\
  result (MemStorage.getUser i (object rm) (world rm)) = Returns (Some user) /\
  result rf = match persist_fault w with
              | None => Returns user
              | Some e => Throws (SystemError e)
              end /\
  FileStorage.users (object rf) = JSMap.set i user m /\
  result (FileStorage.getUser i (object rf) (world rf)) = Returns (Some user) /\
  (JSMap.get i m = None -> JSMap.set i user m = (m ++ [(i, user)])%list) /\
  ((forall a b, entropy w a = entropy w b -> a = b) ->
   NoDup (created_ids (result (run ops (MemStorage.mk m) w))) /\
   NoDup (created_ids (result (run ops (FileStorage.mk m path) w)))).
Proof.
  cbv zeta. rewrite createUser_run. cbv zeta.
  unfold MemStorage.createUser, MemStorage.getUser, MemStorage.this_users,
    MemStorage.put_users, randomUUID, bind, ret.
  simpl.
  repeat split.
  - now rewrite get_set_same.
  - destruct (persist_fault w); reflexivity.
  - destruct (persist_fault w); reflexivity.
  - rewrite getUser_run.
    destruct (persist_fault w); simpl; now rewrite get_set_same.
  - apply set_absent.
  - now apply mem_created_ids_NoDup.
  - now apply file_created_ids_NoDup.
Qed.

(** bob is stored under 7; alice is created under the fresh id 0, and two
    calls in a row give the ids 0 and 10. *)
Lemma createUser_stores_and_returns_record_with_drawn_id_witness :
  let m := [("7", mkUser "7" "bob" "h2")] in
  let alice := mkInsertUser "alice" "h1" in
  let r := FileStorage.createUser alice (FileStorage.mk m "users.json") fresh_disk in
  result r = Returns (mkUser "0" "alice" "h1") /\
  FileStorage.users (object r)
  = [("7", mkUser "7" "bob" "h2"); ("0", mkUser "0" "alice" "h1")] /\
  NoDup (created_ids (result (run [CreateUser alice; CreateUser alice]
                                  (FileStorage.mk m "users.json") fresh_disk))).
Proof.
  pose proof (createUser_stores_and_returns_record_with_drawn_id
                (mkInsertUser "alice" "h1") [("7", mkUser "7" "bob" "h2")]
                "users.json" fresh_disk
                [CreateUser (mkInsertUser "alice" "h1");
                 CreateUser (mkInsertUser "alice" "h1")]) as H.
  cbv zeta in H.
  destruct H as (_ & _ & _ & _ & _ & _ & Hres & Husers & _ & Hfresh & Hdistinct).
  split; [exact Hres|]. split.
  - rewrite Husers. exact (Hfresh eq_refl).
  - exact (proj2 (Hdistinct uuid_of_inj)).
Defined.

(** ** C7: [deleteUser] *)

(** C7.  In both stores, [deleteUser(i)] leaves the collection without [i]
    and with every other record untouched.  The volatile store returns
    whether [i] was present; the durable store returns [false] when it was
    absent, writing nothing, and [true] when it was present, unless its
    persist fails.  With [i] absent the collection is unchanged.  A second
    [deleteUser(i)] right after the first returns [false] and leaves the
    store and the world as the first call left them. *)
Theorem deleteUser_removes_iff_present
    (i : string) (m : JSMap.t User) (path : string) (w : World) :
  let rm := MemStorage.deleteUser i (MemStorage.mk m) w in
  let rf := FileStorage.deleteUser i (FileStorage.mk m path) w in
  result rm = Returns (JSMap.has i m) /\
  MemStorage.users (object rm) = JSMap.remove i m /\
  result rf = (if JSMap.has i m then
                 match persist_fault w with
                 | None => Returns true
                 | Some e => Throws (SystemError e)
                 end
               else Returns false) /\
  FileStorage.users (object rf) = JSMap.remove i m /\
  JSMap.get i (JSMap.remove i m) = None /\
  (forall k, k <> i -> JSMap.get k (JSMap.remove i m) = JSMap.get k m) /\
  (JSMap.has i m = false -> JSMap.remove i m = m /\ world rf = w) /\
  MemStorage.deleteUser i (object rm) (world rm)
  = (Returns false, object rm, world rm) /\
  FileStorage.deleteUser i (object rf) (world rf)
  = (Returns false, object rf, world rf).
Proof.
  cbv zeta.
  assert (Hf : forall w',
             FileStorage.deleteUser i (FileStorage.mk (JSMap.remove i m) path) w'
             = (Returns false, FileStorage.mk (JSMap.remove i m) path, w')).
  { intros w'. rewrite deleteUser_run. cbv zeta. simpl.
    rewrite has_remove_same.
    now rewrite (remove_absent _ _ (get_remove_same i m)). }
  rewrite deleteUser_run. cbv zeta.
  unfold MemStorage.deleteUser, MemStorage.this_users, MemStorage.put_users,
    JSMap.delete, bind, ret.
  simpl.
  split; [reflexivity|]. split; [reflexivity|]. split.
  { destruct (JSMap.has i m); [destruct (persist_fault w)|]; reflexivity. }
  split.
  { destruct (JSMap.has i m); [destruct (persist_fault w)|]; reflexivity. }
  split; [apply get_remove_same|].
  split; [intros k Hk; apply get_remove_other; congruence|].
  split.
  { intros Hh. rewrite Hh. split; [|reflexivity].
    apply remove_absent, has_false_get, Hh. }
  split.
  { rewrite has_remove_same.
    now rewrite (remove_absent _ _ (get_remove_same i m)). }
  destruct (JSMap.has i m); [destruct (persist_fault w)|]; apply Hf.
Qed.

(** bob and cy are stored: deleting bob returns [true] and keeps cy, and
    deleting an id that is absent changes nothing. *)
Lemma deleteUser_removes_iff_present_witness :
  let r := FileStorage.deleteUser "7" (FileStorage.mk bob_and_cy "users.json")
             fresh_disk in
  result r = Returns true /\
  JSMap.get "8" (FileStorage.users (object r)) = Some (mkUser "8" "cy" "h3") /\
  JSMap.remove "9" bob_and_cy = bob_and_cy.
Proof.
  pose proof (deleteUser_removes_iff_present "7" bob_and_cy "users.json" fresh_disk)
    as H.
  pose proof (deleteUser_removes_iff_present "9" bob_and_cy "users.json" fresh_disk)
    as H9.
  cbv zeta in H, H9.
  destruct H as (_ & _ & Hres & Husers & _ & Hother & _).
  destruct H9 as (_ & _ & _ & _ & _ & _ & Habsent & _).
  split; [exact Hres|]. split.
  - rewrite Husers. rewrite (Hother "8"); [reflexivity | discriminate].
  - exact (proj1 (Habsent eq_refl)).
Defined.

(** ** C8: round trip through the snapshot *)



(** ** C9: the two stores are interchangeable *)

(** C9.  On a disk without a snapshot file and on which no [fs] call fails,
    any sequence of the six operations gives, on a new volatile store and on
    a new durable store drawing the same identifiers, the same outcome for
    every operation and the same collection at the end.  The volatile store
    leaves the disk without a file; the durable store leaves on it the
    snapshot of the collection. *)
Theorem volatile_and_durable_stores_agree
    (ops : list Op) (path : option string) (w : World) :
  file w = None ->
  no_fs_fault w ->
  let rm := run ops MemStorage.new w in
  let s := FileStorage.new path w in
  let rf := run ops (fst s) (snd s) in
  result rm = result rf /\
  MemStorage.users (object rm) = FileStorage.users (object rf) /\
  file (world rm) = None /\
  snapshot_in_sync (object rf) (world rf).
Proof.
  intros Hfile Hnf. cbv zeta.
  destruct (run_mirrors ops _ _ _ _ (new_mirrors path w Hfile Hnf))
    as [Hr (Hu & _ & _ & _ & Hsync)].
  split; [exact Hr|]. split; [exact Hu|]. split; [|exact Hsync].
  now rewrite mem_run_file.
Qed.

(** alice is created, her password changed, looked up by name, listed,
    deleted twice and looked up by id. *)
Lemma volatile_and_durable_stores_agree_witness :
  let ops := [CreateUser (mkInsertUser "alice" "h1");
              UpdateUser "0" (mkPatch None (Some "h2"));
              GetUserByUsername "alice"; ListUsers;
              DeleteUser "0"; DeleteUser "0"; GetUser "0"] in
  let s := FileStorage.new None fresh_disk in
  result (run ops MemStorage.new fresh_disk) = result (run ops (fst s) (snd s)) /\
  result (run ops (fst s) (snd s))
  = [Returns (RCreated (mkUser "0" "alice" "h1"));
     Returns (RUser (Some (mkUser "0" "alice" "h2")));
     Returns (RUser (Some (mkUser "0" "alice" "h2")));
     Returns (RList [mkUser "0" "alice" "h2"]);
     Returns (RBool true); Returns (RBool false); Returns (RUser None)].
Proof.
  split; [|reflexivity].
  exact (proj1 (volatile_and_durable_stores_agree _ None fresh_disk
                  eq_refl (fun n => eq_refl))).
Defined.

(** ** C10: every key is the id of its record *)

(** C10, as amended.  The collection a durable store loads, whatever the
    file and the faults, has no key twice and every key equal to the id of
    the record under it.  Every operation of either store keeps a
    collection so, whatever it returns or throws, provided that, when it is
    an [updateUser], its patch carries no [id] or the id of the record
    itself.  Hence the collection of either store after a sequence of such
    operations is so, and [getUser(i)] on it returns absent or a record
    whose id is [i]. *)
Theorem every_key_is_the_id_of_its_record
    (ops : list Op) (path : option string) (w : World) (i : string)
    (op : Op) (mem : MemStorage.t) (fs : FileStorage.t) (w1 : World) :
  let rm := run ops MemStorage.new w in
  let s := FileStorage.new path w in
  let rf := run ops (fst s) (snd s) in
  FileStorage.users (fst s) = loaded_users w /\
  well_keyed (loaded_users w) /\
  (op_keeps_id op = true ->
   well_keyed (MemStorage.users mem) ->
   well_keyed (MemStorage.users (object (exec op mem w1)))) /\
  (op_keeps_id op = true ->
   well_keyed (FileStorage.users fs) ->
   well_keyed (FileStorage.users (object (exec op fs w1)))) /\
  (forallb op_keeps_id ops = true ->
   well_keyed (MemStorage.users (object rm)) /\
   well_keyed (FileStorage.users (object rf)) /\
   absent_or_has_id i (result (MemStorage.getUser i (object rm) (world rm))) /\
   absent_or_has_id i (result (FileStorage.getUser i (object rf) (world rf)))).
Proof.
  cbv zeta.
  split; [apply new_users|]. split; [apply well_keyed_loaded|].
  split; [apply mem_exec_well_keyed|]. split; [apply file_exec_well_keyed|].
  intros Hkeep.
  assert (Hm : well_keyed (MemStorage.users (object (run ops MemStorage.new w)))).
  { apply mem_run_well_keyed; [exact Hkeep | apply well_keyed_empty]. }
  assert (Hf : well_keyed (FileStorage.users
                 (object (run ops (fst (FileStorage.new path w))
                                  (snd (FileStorage.new path w)))))).
  { apply file_run_well_keyed; [exact Hkeep|].
    rewrite new_users. apply well_keyed_loaded. }
  split; [exact Hm|]. split; [exact Hf|]. split.
  - apply (well_keyed_get i _ Hm).
  - rewrite getUser_run. apply (well_keyed_get i _ Hf).
Qed.

(** alice is created and renamed on a fresh disk, then looked up; and bob
    is renamed while the disk is full: the collections stay keyed by id. *)
Lemma every_key_is_the_id_of_its_record_witness :
  let ops := [CreateUser (mkInsertUser "alice" "h1");
              UpdateUser "0" (mkPatch (Some "alicia") None)] in
  let s := FileStorage.new None fresh_disk in
  let rf := run ops (fst s) (snd s) in
  let r := exec (UpdateUser "7" (mkPatch (Some "rob") None))
             (FileStorage.mk bob_and_cy "users.json") (disk_full_at 0 fresh_disk) in
  result (FileStorage.getUser "0" (object rf) (world rf))
  = Returns (Some (mkUser "0" "alicia" "h1")) /\
  absent_or_has_id "0" (result (FileStorage.getUser "0" (object rf) (world rf))) /\
  result r = Throws (SystemError ENOSPC) /\
  well_keyed (FileStorage.users (object r)).
Proof.
  assert (Hwk : well_keyed bob_and_cy).
  { split.
    - unfold JSMap.wf. simpl. repeat constructor; simpl; intuition discriminate.
    - unfold keyed_by_id. repeat constructor. }
  pose proof (every_key_is_the_id_of_its_record
                [CreateUser (mkInsertUser "alice" "h1");
                 UpdateUser "0" (mkPatch (Some "alicia") None)]
                None fresh_disk "0"
                (UpdateUser "7" (mkPatch (Some "rob") None))
                MemStorage.new (FileStorage.mk bob_and_cy "users.json")
                (disk_full_at 0 fresh_disk)) as H.
  cbv zeta in H.
  destruct H as (_ & _ & _ & Hstep & Hrun).
  destruct (Hrun eq_refl) as (_ & _ & _ & Hget).
  split; [reflexivity|]. split; [exact Hget|].
  split; [reflexivity | exact (Hstep eq_refl Hwk)].
Defined.

(** C10, as stated, fails.  alice is created under the id 0; an
    [updateUser] of 0 whose patch carries the id evil, which a [User] given
    as the patch would, returns; [getUser] of 0 then returns, in both
    stores, a record whose id is evil, stored under the key 0. *)
Lemma patch_with_another_id_breaks_the_keying :
  let ops := [CreateUser (mkInsertUser "alice" "h1");
              UpdateUser "0" (mkPatchObject None None (Some "evil"))] in
  let s := FileStorage.new None fresh_disk in
  let rf := run ops (fst s) (snd s) in
  let rm := run ops MemStorage.new fresh_disk in
  result rf = [Returns (RCreated (mkUser "0" "alice" "h1"));
               Returns (RUser (Some (mkUser "evil" "alice" "h1")))] /\
  result (MemStorage.getUser "0" (object rm) (world rm))
  = Returns (Some (mkUser "evil" "alice" "h1")) /\
  result (FileStorage.getUser "0" (object rf) (world rf))
  = Returns (Some (mkUser "evil" "alice" "h1")) /\
  ~ absent_or_has_id "0" (result (FileStorage.getUser "0" (object rf) (world rf))) /\
  ~ keyed_by_id (FileStorage.users (object rf)) /\
  ~ keyed_by_id (MemStorage.users (object rm)).
Proof.
  cbv zeta. split; [reflexivity|]. split; [reflexivity|]. split; [reflexivity|].
  split; [|split].
  - simpl. discriminate.
  - intros H. inversion H as [|? ? Hkey _]. discriminate Hkey.
  - intros H. inversion H as [|? ? Hkey _]. discriminate Hkey.
Qed.

(** * Further properties of the stores and of the endpoints *)

(** ** Facts about lookups by username and single operations *)
Section MoreFacts.

Lemma Array_find_None {A} (p : A -> bool) (l : list A) :
  Array_find p l = None <-> forall x, In x l -> p x = false.
Proof.
  induction l as [|a l IH]; simpl.
  - split; [intros _ x [] | reflexivity].
  - destruct (p a) eqn:E.
    + split; [discriminate|]. intros H. rewrite (H a) in E; [discriminate | now left].
    + rewrite IH. split.
      * intros H x [<-|Hx]; auto.
      * intros H x Hx. apply H. now right.
Qed.

Lemma Array_find_Some {A} (p : A -> bool) (l : list A) (x : A) :
  Array_find p l = Some x ->
  exists before after,
    l = (before ++ x :: after)%list /\ p x = true /\
    forall y, In y before -> p y = false.
Proof.
  induction l as [|a l IH]; simpl; [discriminate|].
  destruct (p a) eqn:E.
  - intros [= <-]. exists [], l. repeat split; auto. intros y [].
  - intros H. destruct (IH H) as (b & c & Hl & Hp & Hb).
    exists (a :: b), c. subst l. repeat split; auto.
    intros y [<-|Hy]; auto.
Qed.

Lemma getUserByUsername_run name this w :
  FileStorage.getUserByUsername name this w
  = (Returns (Array_find (has_username name) (JSMap.values (FileStorage.users this))),
     this, w).
Proof. reflexivity. Qed.

Lemma mem_getUserByUsername_run name this w :
  MemStorage.getUserByUsername name this w
  = (Returns (Array_find (has_username name) (JSMap.values (MemStorage.users this))),
     this, w).
Proof. reflexivity. Qed.

End MoreFacts.

Section MoreFacts2.

(** What an operation of the volatile store computes. *)
Lemma mem_exec_run op m w :
  exec op (MemStorage.mk m) w
  = match op with
    | GetUser i => (Returns (RUser (JSMap.get i m)), MemStorage.mk m, w)
    | GetUserByUsername name =>
        (Returns (RUser (Array_find (has_username name) (JSMap.values m))),
         MemStorage.mk m, w)
    | CreateUser insertUser =>
        let i := entropy w (drawn w) in
        (Returns (RCreated (spread_with_id insertUser i)),
         MemStorage.mk (mutated op i m), draw w)
    | UpdateUser i patch =>
        (Returns (RUser (option_map (fun existing => spread_patch existing patch)
                                    (JSMap.get i m))),
         MemStorage.mk (mutated op i m), w)
    | DeleteUser i =>
        (Returns (RBool (JSMap.has i m)), MemStorage.mk (mutated op i m), w)
    | ListUsers => (Returns (RList (JSMap.values m)), MemStorage.mk m, w)
    end.
Proof.
  destruct op; try reflexivity.
  unfold exec. simpl. rewrite fmap_run.
  unfold MemStorage.updateUser, MemStorage.this_users, MemStorage.put_users,
    bind, ret. simpl.
  destruct (JSMap.get i m); reflexivity.
Qed.

(** The collection of the durable store after an operation, whatever the
    disk does. *)
Lemma file_exec_users op (fs : FileStorage.t) w :
  FileStorage.users (object (exec op fs w))
  = mutated op (entropy w (drawn w)) (FileStorage.users fs).
Proof.
  destruct op; try reflexivity; unfold exec; simpl; rewrite fmap_run.
  - rewrite createUser_run. cbv zeta. destruct (persist_fault w); reflexivity.
  - rewrite updateUser_run.
    destruct (JSMap.get i (FileStorage.users fs)); [|reflexivity].
    cbv zeta. destruct (persist_fault w); reflexivity.
  - rewrite deleteUser_run. cbv zeta.
    destruct (JSMap.has i (FileStorage.users fs)); [|reflexivity].
    destruct (persist_fault w); reflexivity.
Qed.

Lemma file_exec_filePath op (fs : FileStorage.t) w :
  FileStorage.filePath (object (exec op fs w)) = FileStorage.filePath fs.
Proof.
  destruct op; try reflexivity; unfold exec; simpl; rewrite fmap_run.
  - rewrite createUser_run. cbv zeta. destruct (persist_fault w); reflexivity.
  - rewrite updateUser_run.
    destruct (JSMap.get i (FileStorage.users fs)); [|reflexivity].
    cbv zeta. destruct (persist_fault w); reflexivity.
  - rewrite deleteUser_run. cbv zeta.
    destruct (JSMap.has i (FileStorage.users fs)); [|reflexivity].
    destruct (persist_fault w); reflexivity.
Qed.

(** The outcome of the durable store against that of the volatile one. *)
Lemma file_exec_result op m path w w' :
  entropy w' = entropy w -> drawn w' = drawn w ->
  same_or_fs_error (result (exec op (FileStorage.mk m path) w'))
                   (result (exec op (MemStorage.mk m) w)).
Proof.
  intros He Hd. rewrite mem_exec_run.
  destruct op; try (left; reflexivity); unfold exec; simpl; rewrite fmap_run.
  - rewrite createUser_run. cbv zeta. rewrite He, Hd.
    destruct (persist_fault w'); [right; eexists; reflexivity | left; reflexivity].
  - rewrite updateUser_run. simpl.
    destruct (JSMap.get i m); [|left; reflexivity].
    cbv zeta. destruct (persist_fault w'); [right; eexists; reflexivity | left; reflexivity].
  - rewrite deleteUser_run. cbv zeta. simpl.
    destruct (JSMap.has i m); [|left; reflexivity].
    destruct (persist_fault w'); [right; eexists; reflexivity | left; reflexivity].
Qed.

Lemma mutated_frame op k m w :
  target op w <> Some k ->
  JSMap.get k (mutated op (entropy w (drawn w)) m) = JSMap.get k m.
Proof.
  destruct op; simpl; intros Hne; try reflexivity.
  - apply get_set_other. congruence.
  - destruct (JSMap.get i m); [|reflexivity].
    apply get_set_other. congruence.
  - apply get_remove_other. congruence.
Qed.

End MoreFacts2.

(** ** Facts about the constructor and runs on a failing disk *)
Section MoreFacts3.

Lemma new_world path w : snd (FileStorage.new path w) = loaded_world w.
Proof.
  unfold FileStorage.new, FileStorage.ready, FileStorage.load, loaded_world,
    read_reports_missing.
  set (p := match path with Some f => _ | None => _ end). clearbody p.
  cbv zeta. unfold object, world. simpl snd.
  unfold try_catch at 1. unfold try_catch at 1.
  unfold bind at 1. unfold fs_readFile at 1.
  destruct (fs_fault w (fs_calls w)) as [e|] eqn:Ef.
  - destruct e; simpl; try reflexivity.
    unfold bind. rewrite persist_run.
    destruct (persist_fault (tick w)); reflexivity.
  - destruct (file w) as [raw|] eqn:Efile.
    + destruct (JSON.parse raw); reflexivity.
    + simpl. unfold bind. rewrite persist_run.
      destruct (persist_fault (tick w)); reflexivity.
Qed.

Lemma new_filePath path w :
  FileStorage.filePath (fst (FileStorage.new path w)) = chosen_path path.
Proof.
  unfold FileStorage.new, FileStorage.ready, FileStorage.load, chosen_path.
  set (p := match path with Some f => _ | None => _ end). clearbody p.
  cbv zeta. unfold object, world. simpl fst.
  unfold try_catch at 1. unfold try_catch at 1.
  unfold bind at 1. unfold fs_readFile at 1.
  destruct (fs_fault w (fs_calls w)) as [e|] eqn:Ef.
  - destruct e; simpl; try reflexivity.
    unfold bind. rewrite persist_run.
    destruct (persist_fault (tick w)); reflexivity.
  - destruct (file w) as [raw|] eqn:Efile.
    + destruct (JSON.parse raw); reflexivity.
    + simpl. unfold bind. rewrite persist_run.
      destruct (persist_fault (tick w)); reflexivity.
Qed.

Lemma loaded_world_generator w :
  entropy (loaded_world w) = entropy w /\ drawn (loaded_world w) = drawn w.
Proof.
  unfold loaded_world. destruct (read_reports_missing w); [|split; reflexivity].
  destruct (persist_fault (tick w)); [|split; reflexivity].
  now rewrite entropy_persist_failed, drawn_persist_failed.
Qed.

Lemma file_persist_failed w : file (persist_failed w) = file w.
Proof. unfold persist_failed. now destruct (fs_fault w (fs_calls w)). Qed.

(** The two stores side by side, on a disk that may fail. *)
Lemma run_same_memory ops : forall (mem : MemStorage.t) (fs : FileStorage.t) wm wf,
  MemStorage.users mem = FileStorage.users fs ->
  entropy wf = entropy wm -> drawn wf = drawn wm ->
  FileStorage.users (object (run ops fs wf)) = MemStorage.users (object (run ops mem wm)) /\
  Forall2 same_or_fs_error (result (run ops fs wf)) (result (run ops mem wm)).
Proof.
  induction ops as [|op rest IH]; intros mem fs wm wf Hu He Hd.
  - split; [now symmetry | constructor].
  - destruct mem as [m]. destruct fs as [m' path]. simpl in Hu. subst m'.
    destruct (mem_exec_generator op (MemStorage.mk m) wm) as [Hem Hdm].
    destruct (file_exec_generator op (FileStorage.mk m path) wf) as [Hef Hdf].
    assert (Hu' : MemStorage.users (object (exec op (MemStorage.mk m) wm))
                  = FileStorage.users (object (exec op (FileStorage.mk m path) wf))).
    { rewrite file_exec_users, mem_exec_run, He, Hd. destruct op; reflexivity. }
    destruct (IH _ _ (world (exec op (MemStorage.mk m) wm))
                     (world (exec op (FileStorage.mk m path) wf)) Hu') as [Hus Hrs].
    + now rewrite Hef, Hem.
    + rewrite Hdf, Hdm. destruct op; congruence.
    + split; [exact Hus|].
      change (Forall2 same_or_fs_error
                (result (exec op (FileStorage.mk m path) wf)
                 :: result (run rest (object (exec op (FileStorage.mk m path) wf))
                                     (world (exec op (FileStorage.mk m path) wf))))
                (result (exec op (MemStorage.mk m) wm)
                 :: result (run rest (object (exec op (MemStorage.mk m) wm))
                                     (world (exec op (MemStorage.mk m) wm))))).
      constructor; [|exact Hrs].
      now apply file_exec_result.
Qed.

Lemma file_run_filePath ops : forall (fs : FileStorage.t) w,
  FileStorage.filePath (object (run ops fs w)) = FileStorage.filePath fs.
Proof.
  induction ops as [|op rest IH]; intros fs w; [reflexivity|].
  change (FileStorage.filePath
            (object (run rest (object (exec op fs w)) (world (exec op fs w))))
          = FileStorage.filePath fs).
  now rewrite IH, file_exec_filePath.
Qed.

(** A text that is no JSON text by its first character is not read. *)
Lemma first_significant_lex raw :
  match first_significant raw with
  | None => JSON.lex None raw = Some []
  | Some c =>
      starts_json_value c = false ->
      match JSON.lex None raw with
      | Some (JSON.TLBracket :: _) => False
      | _ => True
      end
  end.
Proof.
  induction raw as [|c r IH]; [reflexivity|].
  cbn [first_significant]. destruct (JSON.is_ws c) eqn:Ews.
  - cbn [JSON.lex]. rewrite Ews. exact IH.
  - revert Ews. destruct c as [[] [] [] [] [] [] [] []];
      intros Ews Hstart; try discriminate Ews; try discriminate Hstart;
      cbn; try exact I; destruct (JSON.lex None r); exact I.
Qed.

Lemma not_json_parse raw : not_json raw = true -> JSON.parse raw = None.
Proof.
  unfold not_json, JSON.parse. intros H.
  pose proof (first_significant_lex raw) as Hl.
  destruct (first_significant raw) as [c|].
  - apply negb_true_iff in H. specialize (Hl H).
    destruct (JSON.lex None raw) as [[|[] ts]|]; try reflexivity.
    contradiction.
  - rewrite Hl. reflexivity.
Qed.

End MoreFacts3.

(** ** Facts about removal and repeated updates *)
Section MoreFacts4.

Lemma values_remove i (m : JSMap.t User) :
  keyed_by_id m ->
  JSMap.values (JSMap.remove i m)
  = filter (fun u => negb (has_id i u)) (JSMap.values m).
Proof.
  unfold keyed_by_id. induction m as [|[k u] r IH]; simpl; intros H; auto.
  inversion H as [|? ? Hku Hr]; subst. simpl in Hku. subst k.
  unfold has_id at 1. destruct (String.eqb (id u) i); simpl; auto.
  now rewrite IH.
Qed.

Lemma length_remove_present {V} i (m : JSMap.t V) :
  JSMap.wf m -> JSMap.has i m = true ->
  S (length (JSMap.remove i m)) = length m.
Proof.
  unfold JSMap.wf, JSMap.has.
  induction m as [|[k v] r IH]; simpl; intros Hnd Hh; [discriminate|].
  inversion Hnd as [|? ? Hnin Hnd']; subst.
  destruct (String.eqb k i) eqn:E.
  - apply String.eqb_eq in E. subst k.
    apply get_None_keys in Hnin. now rewrite (remove_absent _ _ Hnin).
  - simpl. f_equal. now apply IH.
Qed.

Lemma set_set {V} k (v1 v2 : V) (m : JSMap.t V) :
  JSMap.set k v2 (JSMap.set k v1 m) = JSMap.set k v2 m.
Proof.
  induction m as [|[k' v'] r IH]; simpl.
  - now rewrite String.eqb_refl.
  - destruct (String.eqb k' k) eqn:E; simpl.
    + now rewrite String.eqb_refl.
    + now rewrite E, IH.
Qed.

Lemma spread_patch_twice existing p1 p2 :
  spread_patch (spread_patch existing p1) p2
  = spread_patch existing (patch_over p2 p1).
Proof.
  unfold spread_patch, patch_over. simpl.
  destruct (patch_username p2), (patch_password p2), (patch_id p2); reflexivity.
Qed.


End MoreFacts4.

(** ** Facts about the endpoints on the durable store *)
Section RouteFacts.

Variable bcrypt : Bcrypt.

(** What a registration computes on the durable store. *)
Lemma post_register_run salt req (this : FileStorage.t) w :
  post_register bcrypt salt req this w
  = match truthy (body_username req), truthy (body_password req) with
    | Some name, Some pass =>
        match Array_find (has_username name) (JSMap.values (FileStorage.users this)) with
        | Some _ =>
            (Returns (mkResponse 409 (ErrorPayload "username already taken")), this, w)
        | None =>
            let i := entropy w (drawn w) in
            let user := mkUser i name (hashSync bcrypt salt pass) in
            let this' := FileStorage.mk (JSMap.set i user (FileStorage.users this))
                                        (FileStorage.filePath this) in
            match persist_fault w with
            | None =>
                (Returns (mkResponse 201 (UserPayload (mkSafeUser i name))), this',
                 persisted (JSON.stringify (JSMap.values (FileStorage.users this')))
                           (draw w))
            | Some e =>
                (Returns (mkResponse 500 (ErrorPayload "failed to create user")), this',
                 persist_failed (draw w))
            end
        end
    | _, _ =>
        (Returns (mkResponse 400 (ErrorPayload "username and password are required")),
         this, w)
    end.
Proof.
  unfold post_register, try_catch.
  destruct (truthy (body_username req)) as [name|]; [|reflexivity].
  destruct (truthy (body_password req)) as [pass|]; [|reflexivity].
  unfold bind at 1. simpl getUserByUsername. rewrite getUserByUsername_run.
  destruct (Array_find (has_username name) (JSMap.values (FileStorage.users this)));
    [reflexivity|].
  unfold bind at 1. simpl createUser. rewrite createUser_run. cbv zeta.
  destruct (persist_fault w); reflexivity.
Qed.

Lemma post_login_run req (this : FileStorage.t) w :
  post_login bcrypt req this w
  = (Returns
       match truthy (body_username req), truthy (body_password req) with
       | Some name, Some pass =>
           match Array_find (has_username name) (JSMap.values (FileStorage.users this)) with
           | None => mkResponse 401 (ErrorPayload "invalid credentials")
           | Some u =>
               match compareSync bcrypt pass (password u) with
               | Some true => mkResponse 200 (UserPayload (strip_password u))
               | Some false => mkResponse 401 (ErrorPayload "invalid credentials")
               | None => mkResponse 500 (ErrorPayload "failed to login")
               end
           end
       | _, _ => mkResponse 400 (ErrorPayload "username and password are required")
       end, this, w).
Proof.
  unfold post_login, try_catch.
  destruct (truthy (body_username req)) as [name|]; [|reflexivity].
  destruct (truthy (body_password req)) as [pass|]; [|reflexivity].
  unfold bind at 1. simpl getUserByUsername. rewrite getUserByUsername_run.
  destruct (Array_find (has_username name) (JSMap.values (FileStorage.users this)))
    as [u|]; [|reflexivity].
  unfold bind, bcrypt_compareSync.
  destruct (compareSync bcrypt pass (password u)) as [[|]|]; reflexivity.
Qed.

Lemma get_users_run (this : FileStorage.t) w :
  get_users this w
  = (Returns (mkResponse 200
       (UsersPayload (map strip_password (JSMap.values (FileStorage.users this))))),
     this, w).
Proof. reflexivity. Qed.

End RouteFacts.

Section RouteFacts2.

Variable bcrypt : Bcrypt.

Lemma find_username_set i user (m : JSMap.t User) :
  Array_find (has_username (username user)) (JSMap.values m) = None ->
  Array_find (has_username (username user)) (JSMap.values (JSMap.set i user m))
  = Some user.
Proof.
  induction m as [|[k v] r IH]; simpl.
  - intros _. unfold has_username. now rewrite String.eqb_refl.
  - destruct (has_username (username user) v) eqn:Ev; [discriminate|].
    intros Hr. destruct (String.eqb k i); simpl.
    + unfold has_username at 1. now rewrite String.eqb_refl.
    + rewrite Ev. now apply IH.
Qed.

Lemma usernames_set i user (m : JSMap.t User) name :
  In name (map username (JSMap.values (JSMap.set i user m))) ->
  name = username user \/ In name (map username (JSMap.values m)).
Proof.
  induction m as [|[k v] r IH]; simpl.
  - intros [H|[]]. now left.
  - destruct (String.eqb k i); simpl.
    + intros [H|H]; [now left | right; now right].
    + intros [H|H]; [right; now left|].
      destruct (IH H); [now left | right; now right].
Qed.

Lemma unique_usernames_set i user (m : JSMap.t User) :
  unique_usernames m ->
  Array_find (has_username (username user)) (JSMap.values m) = None ->
  unique_usernames (JSMap.set i user m).
Proof.
  unfold unique_usernames.
  induction m as [|[k v] r IH]; simpl; intros Hnd Hfind.
  - repeat constructor. intros [].
  - inversion Hnd as [|? ? Hnin Hnd']; subst.
    destruct (has_username (username user) v) eqn:Ev; [discriminate|].
    destruct (String.eqb k i); simpl.
    + constructor; [|exact Hnd'].
      intros Hin. apply in_map_iff in Hin. destruct Hin as (x & Hx & Hin).
      pose proof (proj1 (Array_find_None _ _) Hfind x Hin) as Hp.
      unfold has_username in Hp. apply String.eqb_neq in Hp. congruence.
    + constructor; [|now apply IH].
      intros Hin. apply usernames_set in Hin. destruct Hin as [Heq|Hin]; [|auto].
      unfold has_username in Ev. apply String.eqb_neq in Ev. congruence.
Qed.

(** In a collection without two records of one username, the record found
    under a username is the only one with it. *)
Lemma find_unique_username (l : list User) u :
  NoDup (map username l) -> In u l ->
  Array_find (has_username (username u)) l = Some u.
Proof.
  induction l as [|a l IH]; simpl; intros Hnd Hin; [contradiction|].
  inversion Hnd as [|? ? Hnin Hnd']; subst.
  destruct Hin as [->|Hin].
  - unfold has_username. now rewrite String.eqb_refl.
  - destruct (has_username (username u) a) eqn:Ea.
    + exfalso. apply Hnin. unfold has_username in Ea. apply String.eqb_eq in Ea.
      rewrite Ea. now apply in_map.
    + now apply IH.
Qed.

Lemma serve_users rq (this : FileStorage.t) w :
  (exists resp, result (serve bcrypt rq this w) = Returns resp) /\
  (unique_usernames (FileStorage.users this) ->
   unique_usernames (FileStorage.users (object (serve bcrypt rq this w)))).
Proof.
  assert (Hsame : forall resp : Response,
            (exists resp', result (Returns resp, this, w) = Returns resp') /\
            (unique_usernames (FileStorage.users this) ->
             unique_usernames
               (FileStorage.users (object (Returns resp, this, w))))).
  { intros resp. split; [eexists; reflexivity | intros Hu; exact Hu]. }
  destruct rq as [salt req|req|]; simpl.
  - rewrite post_register_run.
    destruct (truthy (body_username req)) as [name|]; [|apply Hsame].
    destruct (truthy (body_password req)) as [pass|]; [|apply Hsame].
    destruct (Array_find (has_username name) (JSMap.values (FileStorage.users this)))
      eqn:Ef; [apply Hsame|].
    cbv zeta.
    assert (Hset : unique_usernames (FileStorage.users this) ->
                   unique_usernames
                     (JSMap.set (entropy w (drawn w))
                        (mkUser (entropy w (drawn w)) name (hashSync bcrypt salt pass))
                        (FileStorage.users this))).
    { intros Hu. apply unique_usernames_set; [exact Hu | exact Ef]. }
    destruct (persist_fault w); (split; [eexists; reflexivity | exact Hset]).
  - rewrite post_login_run. apply Hsame.
  - rewrite get_users_run. apply Hsame.
Qed.

Lemma serve_all_users rqs : forall (this : FileStorage.t) w,
  Forall (fun o => exists resp, o = Returns resp)
         (result (serve_all bcrypt rqs this w)) /\
  (unique_usernames (FileStorage.users this) ->
   unique_usernames (FileStorage.users (object (serve_all bcrypt rqs this w)))).
Proof.
  induction rqs as [|rq rest IH]; intros this w.
  - split; [constructor | auto].
  - destruct (serve_users rq this w) as [Hr Hu].
    destruct (IH (object (serve bcrypt rq this w)) (world (serve bcrypt rq this w)))
      as [Hrs Hus].
    split.
    + change (Forall (fun o => exists resp, o = Returns resp)
                (result (serve bcrypt rq this w)
                 :: result (serve_all bcrypt rest (object (serve bcrypt rq this w))
                                      (world (serve bcrypt rq this w))))).
      constructor; assumption.
    + intros H. apply Hus, Hu, H.
Qed.

End RouteFacts2.

Section RouteFacts3.

Lemma find_absent_name name (l : list User) :
  (forall u, In u l -> username u <> name) ->
  Array_find (has_username name) l = None.
Proof.
  intros H. apply Array_find_None. intros u Hu.
  apply String.eqb_neq. now apply H.
Qed.

Lemma find_present_name name (l : list User) u :
  In u l -> username u = name ->
  exists v, Array_find (has_username name) l = Some v.
Proof.
  intros Hin Hn. destruct (Array_find (has_username name) l) as [v|] eqn:E; [eauto|].
  pose proof (proj1 (Array_find_None _ _) E u Hin) as Hp.
  unfold has_username in Hp. apply String.eqb_neq in Hp. contradiction.
Qed.

End RouteFacts3.

(** ** Facts about restarts *)
Section RestartFacts.

Lemma new_in_sync path w :
  no_fs_fault w -> boots_in_sync w ->
  let s := FileStorage.new path w in
  snapshot_in_sync (fst s) (snd s) /\ no_fs_fault (snd s) /\
  (forall m, file w = Some (JSON.stringify (JSMap.values m)) -> well_keyed m ->
             FileStorage.users (fst s) = m).
Proof.
  intros Hnf Hboot. cbv zeta.
  assert (Hnf' : no_fs_fault (snd (FileStorage.new path w))).
  { rewrite new_world. unfold loaded_world.
    destruct (read_reports_missing w); [|exact Hnf].
    destruct (persist_fault (tick w)); [|exact Hnf].
    unfold persist_failed. destruct (fs_fault (tick w) (fs_calls (tick w))); exact Hnf. }
  assert (Hload : forall m, file w = Some (JSON.stringify (JSMap.values m)) ->
                            well_keyed m -> loaded_users w = m).
  { intros m Hfile [Hwf Hk]. unfold loaded_users.
    rewrite Hnf, Hfile, parse_stringify. now apply of_entries_values. }
  split; [|split; [exact Hnf'|]].
  - unfold snapshot_in_sync. rewrite new_world, new_users.
    destruct Hboot as [Hnone | (m & Hwk & Hfile)].
    + unfold loaded_world, loaded_users, read_reports_missing.
      rewrite Hnf, Hnone.
      assert (Hp : persist_fault (tick w) = None)
        by (unfold persist_fault; simpl; now rewrite !Hnf).
      rewrite Hp. reflexivity.
    + rewrite (Hload m Hfile Hwk).
      unfold loaded_world, read_reports_missing. rewrite Hnf, Hfile. exact Hfile.
  - intros m Hfile Hwk. rewrite new_users. now apply Hload.
Qed.

Lemma file_run_in_sync ops (fs : FileStorage.t) w :
  no_fs_fault w -> snapshot_in_sync fs w ->
  snapshot_in_sync (object (run ops fs w)) (world (run ops fs w)) /\
  no_fs_fault (world (run ops fs w)).
Proof.
  intros Hnf Hsync.
  assert (Hm : mirrors (MemStorage.mk (FileStorage.users fs)) w fs w).
  { repeat split; assumption. }
  destruct (run_mirrors ops _ _ _ _ Hm) as [_ (_ & _ & _ & Hnf' & Hsync')].
  split; assumption.
Qed.

Lemma mem_run_returns ops : forall (mem : MemStorage.t) w,
  Forall (fun o => exists reply, o = Returns reply) (result (run ops mem w)).
Proof.
  induction ops as [|op rest IH]; intros mem w; [constructor|].
  change (Forall (fun o => exists reply, o = Returns reply)
            (result (exec op mem w)
             :: result (run rest (object (exec op mem w)) (world (exec op mem w))))).
  constructor; [|apply IH].
  destruct mem as [m]. rewrite mem_exec_run.
  destruct op; eexists; reflexivity.
Qed.

End RestartFacts.

(** ** Lookup by username *)

(** X1.  In both stores, [getUserByUsername(name)] returns, never throws,
    and gives the same in both: absent exactly when no stored record has
    the username, and otherwise the oldest stored record with it, every
    record before it in the order of [listUsers] having another
    username. *)
Theorem getUserByUsername_gives_oldest_record_with_the_name
    (name : string) (m : JSMap.t User) (path : string) (w : World) :
  let rm := MemStorage.getUserByUsername name (MemStorage.mk m) w in
  let rf := FileStorage.getUserByUsername name (FileStorage.mk m path) w in
  result rm = result rf /\
  match result rf with
  | Returns None =>
      forall u, In u (JSMap.values m) -> username u <> name
  | Returns (Some u) =>
      username u = name /\
      exists before after,
        JSMap.values m = (before ++ u :: after)%list /\
        forall v, In v before -> username v <> name
  | Throws _ => False
  end.
Proof.
  cbv zeta. rewrite getUserByUsername_run, mem_getUserByUsername_run.
  unfold result. simpl. split; [reflexivity|].
  destruct (Array_find (has_username name) (JSMap.values m)) as [u|] eqn:E.
  - apply Array_find_Some in E. destruct E as (b & a & Hl & Hp & Hb).
    split; [now apply String.eqb_eq|].
    exists b, a. split; [exact Hl|].
    intros v Hv. apply String.eqb_neq. now apply Hb.
  - intros u Hu. apply String.eqb_neq.
    exact (proj1 (Array_find_None _ _) E u Hu).
Qed.

(** Two records are called ann: the one stored first is found. *)
Lemma getUserByUsername_gives_oldest_record_with_the_name_witness :
  let m := [("2", mkUser "2" "bob" "h2"); ("1", mkUser "1" "ann" "h1");
            ("3", mkUser "3" "ann" "h3")] in
  let first := mkUser "1" "ann" "h1" in
  result (FileStorage.getUserByUsername "ann" (FileStorage.mk m "users.json")
            fresh_disk)
  = Returns (Some first) /\
  exists before after,
    JSMap.values m = (before ++ first :: after)%list /\
    forall v, In v before -> username v <> "ann".
Proof.
  split; [reflexivity|].
  exact (proj2 (proj2 (getUserByUsername_gives_oldest_record_with_the_name "ann"
                         [("2", mkUser "2" "bob" "h2"); ("1", mkUser "1" "ann" "h1");
                          ("3", mkUser "3" "ann" "h3")]
                         "users.json" fresh_disk))).
Defined.

(** ** Single operations *)

(** X2.  In both stores, an operation leaves alone every id it does not
    work on: for [k] other than the id drawn by [createUser], or the
    argument of [updateUser] or [deleteUser], the record under [k] is after
    the operation what it was before, whether the durable store returned or
    threw. *)
Theorem operation_leaves_other_ids_alone
    (op : Op) (k : string) (m : JSMap.t User) (path : string) (w : World) :
  target op w <> Some k ->
  let rm := exec op (MemStorage.mk m) w in
  let rf := exec op (FileStorage.mk m path) w in
  JSMap.get k (MemStorage.users (object rm)) = JSMap.get k m /\
  JSMap.get k (FileStorage.users (object rf)) = JSMap.get k m /\
  result (getUser k (object rf) (world rf))
  = result (getUser k (FileStorage.mk m path) w).
Proof.
  intros Hne. cbv zeta.
  assert (Hf : JSMap.get k (FileStorage.users
                              (object (exec op (FileStorage.mk m path) w)))
               = JSMap.get k m).
  { rewrite file_exec_users. simpl. apply mutated_frame. exact Hne. }
  split.
  - rewrite mem_exec_run.
    destruct op; try reflexivity; simpl; apply (mutated_frame _ _ _ _ Hne).
  - split; [exact Hf|].
    simpl. rewrite !getUser_run. unfold result. simpl. now rewrite Hf.
Qed.

(** ann is deleted while the disk is broken: bob is still there. *)
Lemma operation_leaves_other_ids_alone_witness :
  let r := exec (DeleteUser "1") (FileStorage.mk ann_and_bob "users.json")
             (broken_disk fresh_disk) in
  result r = Throws (SystemError EIO) /\
  JSMap.get "2" (FileStorage.users (object r)) = Some (mkUser "2" "bob" "s$h2").
Proof.
  split; [reflexivity|].
  assert (Hother : target (DeleteUser "1") (broken_disk fresh_disk) <> Some "2")
    by discriminate.
  exact (proj1 (proj2 (operation_leaves_other_ids_alone (DeleteUser "1") "2"
                         ann_and_bob "users.json" (broken_disk fresh_disk)
                         Hother))).
Defined.

(** X6.  In both stores, on a collection keyed by id, [listUsers] after
    [deleteUser(i)] is [listUsers] before it without the record of id [i],
    the others in the same order: one record fewer when [i] was present,
    the same records when it was not; in the durable store also when the
    persist of the deletion failed. *)
Theorem deleteUser_drops_one_record_and_keeps_the_order
    (i : string) (m : JSMap.t User) (path : string) (w : World) :
  well_keyed m ->
  let rm := MemStorage.deleteUser i (MemStorage.mk m) w in
  let rf := FileStorage.deleteUser i (FileStorage.mk m path) w in
  let kept := filter (fun u => negb (has_id i u)) (JSMap.values m) in
  result (MemStorage.listUsers (object rm) (world rm)) = Returns kept /\
  result (FileStorage.listUsers (object rf) (world rf)) = Returns kept /\
  length kept = (if JSMap.has i m then length (JSMap.values m) - 1
                 else length (JSMap.values m)).
Proof.
  intros [Hwf Hk]. cbv zeta.
  rewrite listUsers_run, deleteUser_run. cbv zeta.
  unfold MemStorage.deleteUser, MemStorage.listUsers, MemStorage.this_users,
    MemStorage.put_users, JSMap.delete, bind, ret.
  simpl. rewrite <- (values_remove i m Hk).
  split; [reflexivity|]. split.
  - destruct (JSMap.has i m); [destruct (persist_fault w)|]; reflexivity.
  - unfold JSMap.values. rewrite !length_map.
    destruct (JSMap.has i m) eqn:Eh.
    + pose proof (length_remove_present i m Hwf Eh). lia.
    + apply has_false_get in Eh. now rewrite (remove_absent _ _ Eh).
Qed.

Lemma deleteUser_drops_one_record_and_keeps_the_order_witness :
  let r := FileStorage.deleteUser "1" (FileStorage.mk ann_and_bob "users.json")
             fresh_disk in
  result (FileStorage.listUsers (object r) (world r))
  = Returns [mkUser "2" "bob" "s$h2"].
Proof.
  assert (Hwk : well_keyed ann_and_bob).
  { split.
    - unfold JSMap.wf. simpl. repeat constructor; simpl; intuition discriminate.
    - unfold keyed_by_id. repeat constructor. }
  exact (proj1 (proj2 (deleteUser_drops_one_record_and_keeps_the_order "1"
                         ann_and_bob "users.json" fresh_disk Hwk))).
Defined.

(** X7.  In both stores, [updateUser(i, p1)] followed by [updateUser(i, p2)]
    leaves the collection that the single [updateUser] with the fields of
    [p2] laid over those of [p1] leaves.  The volatile store returns the
    same record and is in the same state; the durable store returns that
    record too, unless a persist throws. *)
Theorem two_updates_are_one_update_with_the_later_patch_on_top
    (i : string) (p1 p2 : PartialInsertUser) (m : JSMap.t User)
    (path : string) (w : World) :
  let rm1 := MemStorage.updateUser i p1 (MemStorage.mk m) w in
  let rm2 := MemStorage.updateUser i p2 (object rm1) (world rm1) in
  let rm := MemStorage.updateUser i (patch_over p2 p1) (MemStorage.mk m) w in
  let rf1 := FileStorage.updateUser i p1 (FileStorage.mk m path) w in
  let rf2 := FileStorage.updateUser i p2 (object rf1) (world rf1) in
  let rf := FileStorage.updateUser i (patch_over p2 p1) (FileStorage.mk m path) w in
  rm2 = rm /\
  FileStorage.users (object rf2) = FileStorage.users (object rf) /\
  same_or_fs_error (result rf2) (result rm).
Proof.
  cbv zeta. rewrite !mem_updateUser_run.
  rewrite (updateUser_run i p1), (updateUser_run i (patch_over p2 p1)). simpl.
  destruct (JSMap.get i m) as [existing|] eqn:Eg.
  - unfold object, world. simpl. rewrite mem_updateUser_run, get_set_same.
    rewrite set_set, spread_patch_twice. split; [reflexivity|].
    destruct (persist_fault w); simpl; rewrite updateUser_run; simpl;
      rewrite get_set_same, set_set, spread_patch_twice;
      match goal with
      | |- context [persist_fault ?x] => destruct (persist_fault x)
      end; simpl;
      (split; [reflexivity|]);
      first [left; reflexivity | right; eexists; reflexivity].
  - unfold object, world. simpl. rewrite mem_updateUser_run, updateUser_run. simpl.
    rewrite Eg. split; [reflexivity|]. split; [reflexivity | left; reflexivity].
Qed.

(** X9.  [getUser], [getUserByUsername] and [listUsers] of the durable
    store answer from memory only: they return, and return what the
    volatile store with the same collection returns, whatever the disk
    holds and whichever [fs] calls would fail, and they leave the store and
    the world untouched. *)
Theorem reads_use_memory_only
    (op : Op) (m : JSMap.t User) (path : string) (w w' : World) :
  is_mutating_call op = false ->
  let rf := exec op (FileStorage.mk m path) w in
  let rm := exec op (MemStorage.mk m) w in
  (exists reply, result rf = Returns reply) /\
  result rf = result rm /\
  result rf = result (exec op (FileStorage.mk m path) w') /\
  object rf = FileStorage.mk m path /\ world rf = w /\
  object rm = MemStorage.mk m /\ world rm = w.
Proof.
  intros Hread. cbv zeta.
  destruct op; try discriminate Hread;
    (split; [eexists; reflexivity | repeat split]).
Qed.

Lemma reads_use_memory_only_witness :
  result (exec (GetUserByUsername "bob")
            (FileStorage.mk ann_and_bob "users.json") (broken_disk fresh_disk))
  = Returns (RUser (Some (mkUser "2" "bob" "s$h2"))).
Proof.
  pose proof (reads_use_memory_only (GetUserByUsername "bob") ann_and_bob
                "users.json" (broken_disk fresh_disk) fresh_disk eq_refl) as H.
  cbv zeta in H. destruct H as (_ & _ & Hsame & _).
  rewrite Hsame. reflexivity.
Defined.

(** ** The durable store on a disk that may fail *)

(** X3.  Whatever the file holds and whichever [fs] calls fail, a durable
    store keeps in memory, through any sequence of operations, the
    collection that a volatile store started with the loaded collection
    keeps.  The volatile store returns from every operation; the durable
    store returns the same, or throws the system error of a failed persist
    and nothing else. *)
Theorem durable_store_keeps_memory_of_volatile_store_on_any_disk
    (ops : list Op) (path : option string) (w : World) :
  let s := FileStorage.new path w in
  let rf := run ops (fst s) (snd s) in
  let rm := run ops (MemStorage.mk (loaded_users w)) w in
  FileStorage.users (object rf) = MemStorage.users (object rm) /\
  Forall2 same_or_fs_error (result rf) (result rm) /\
  Forall (fun o => exists reply, o = Returns reply) (result rm).
Proof.
  cbv zeta. rewrite <- and_assoc. split; [|apply mem_run_returns].
  apply run_same_memory.
  - simpl. symmetry. apply new_users.
  - rewrite new_world. apply loaded_world_generator.
  - rewrite new_world. apply loaded_world_generator.
Qed.

(** X4.  The constructor of the durable store writes to the snapshot file
    only when the read reports the file as missing, and then only the text
    of the empty array; when that write fails, and in every other case, the
    file is what it was.  A store whose read reported the file as missing
    is empty. *)
Theorem constructor_writes_only_the_empty_snapshot_of_a_missing_file
    (path : option string) (w : World) :
  let s := FileStorage.new path w in
  file (snd s)
  = (if read_reports_missing w then
       match persist_fault (tick w) with
       | None => Some "[]"
       | Some _ => file w
       end
     else file w) /\
  (read_reports_missing w = true -> FileStorage.users (fst s) = JSMap.empty).
Proof.
  cbv zeta. rewrite new_world, new_users. unfold loaded_world, loaded_users.
  split.
  - destruct (read_reports_missing w); [|reflexivity].
    destruct (persist_fault (tick w)); [|reflexivity].
    now rewrite file_persist_failed.
  - unfold read_reports_missing.
    destruct (fs_fault w (fs_calls w)); [reflexivity|].
    destruct (file w); [discriminate | reflexivity].
Qed.

(** The file is missing and the disk is full when the bootstrap writes:
    the store is empty and there is still no file. *)
Lemma constructor_writes_only_the_empty_snapshot_of_a_missing_file_witness :
  let s := FileStorage.new None (disk_full_at 2 fresh_disk) in
  file (snd s) = None /\ FileStorage.users (fst s) = JSMap.empty.
Proof.
  pose proof (constructor_writes_only_the_empty_snapshot_of_a_missing_file None
                (disk_full_at 2 fresh_disk)) as H.
  cbv zeta in H. destruct H as [Hfile Hempty].
  split; [exact Hfile | exact (Hempty eq_refl)].
Defined.

(** X5.  When the snapshot file exists but the read fails with an error
    other than not-found, or the text is no JSON text by its first
    character (it is empty, or white space only, or starts with a character
    that no JSON value starts with), the store is ready with an empty
    collection and the file as it was; the first [createUser] whose persist
    does not fail then returns and replaces the contents of the file by the
    snapshot of the one new record. *)
Theorem unreadable_snapshot_is_lost_at_the_next_write
    (path : option string) (w : World) (raw : string) (insertUser : InsertUser) :
  file w = Some raw ->
  read_reports_missing w = false ->
  fs_fault w (fs_calls w) <> None \/ not_json raw = true ->
  persist_fault (tick w) = None ->
  let s := FileStorage.new path w in
  let r := FileStorage.createUser insertUser (fst s) (snd s) in
  let user := mkUser (entropy w (drawn w)) (ins_username insertUser)
                     (ins_password insertUser) in
  FileStorage.users (fst s) = JSMap.empty /\
  file (snd s) = Some raw /\
  result r = Returns user /\
  file (world r) = Some (JSON.stringify [user]).
Proof.
  intros Hfile Hread Hbad Hp. cbv zeta.
  assert (Hu : FileStorage.users (fst (FileStorage.new path w)) = JSMap.empty).
  { rewrite new_users. unfold loaded_users. rewrite Hfile.
    destruct (fs_fault w (fs_calls w)); [reflexivity|].
    destruct Hbad as [Hf | Hnot]; [congruence|].
    now rewrite (not_json_parse raw Hnot). }
  assert (Hw : snd (FileStorage.new path w) = tick w).
  { rewrite new_world. unfold loaded_world. now rewrite Hread. }
  split; [exact Hu|]. rewrite Hw. split; [exact Hfile|].
  rewrite createUser_run. cbv zeta. rewrite Hp, Hu. split; reflexivity.
Qed.

(** The file holds a line of text that is no JSON: the store starts empty,
    and creating cy leaves a file with cy alone. *)
Lemma unreadable_snapshot_is_lost_at_the_next_write_witness :
  let s := FileStorage.new None (disk_with "users: ann, bob") in
  let r := FileStorage.createUser (mkInsertUser "cy" "h3") (fst s) (snd s) in
  file (snd s) = Some "users: ann, bob" /\
  result r = Returns (mkUser "0" "cy" "h3") /\
  file (world r) = Some (JSON.stringify [mkUser "0" "cy" "h3"]).
Proof.
  exact (proj2 (unreadable_snapshot_is_lost_at_the_next_write None
                  (disk_with "users: ann, bob") "users: ann, bob"
                  (mkInsertUser "cy" "h3")
                  eq_refl eq_refl (or_intror eq_refl) eq_refl)).
Defined.

(** X8.  A durable store keeps through every operation the path its
    constructor chose: the argument, or the default path when the argument
    is missing or the empty string.  The path is never the empty string. *)
Theorem store_keeps_the_path_it_chose
    (ops : list Op) (path : option string) (w : World) :
  let s := FileStorage.new path w in
  FileStorage.filePath (object (run ops (fst s) (snd s))) = chosen_path path /\
  chosen_path path <> EmptyString /\
  chosen_path (Some EmptyString) = chosen_path None.
Proof.
  cbv zeta. rewrite file_run_filePath, new_filePath.
  split; [reflexivity|]. split; [|reflexivity].
  unfold chosen_path. destruct path as [f|]; [|discriminate].
  destruct (String.eqb f EmptyString) eqn:E; [discriminate|].
  now apply String.eqb_neq.
Qed.

(** X10.  On a disk whose [fs] calls do not fail and that holds no snapshot
    file, or the snapshot of a collection keyed by id: after any sequence of
    operations on a durable store, none of them an [updateUser] whose patch
    carries another id than that of its record, a new durable store
    constructed on the same path and on the disk as it then is holds the
    same collection, in the same order, and leaves the file as it is; and
    the disk is again such a disk. *)
Theorem restart_recovers_the_collection
    (ops : list Op) (path path' : option string) (w : World) :
  no_fs_fault w ->
  boots_in_sync w ->
  forallb op_keeps_id ops = true ->
  chosen_path path' = chosen_path path ->
  let s := FileStorage.new path w in
  let r := run ops (fst s) (snd s) in
  let s' := FileStorage.new path' (world r) in
  FileStorage.filePath (fst s') = FileStorage.filePath (object r) /\
  FileStorage.users (fst s') = FileStorage.users (object r) /\
  file (snd s') = file (world r) /\
  no_fs_fault (world r) /\ boots_in_sync (world r).
Proof.
  intros Hnf Hboot Hkeep Hpath. cbv zeta.
  destruct (new_in_sync path w Hnf Hboot) as (Hsync & Hnf1 & _).
  destruct (file_run_in_sync ops _ _ Hnf1 Hsync) as [Hsync' Hnf'].
  assert (Hwk : well_keyed (FileStorage.users
                  (object (run ops (fst (FileStorage.new path w))
                                   (snd (FileStorage.new path w)))))).
  { apply file_run_well_keyed; [exact Hkeep|].
    rewrite new_users. apply well_keyed_loaded. }
  assert (Hboot' : boots_in_sync (world (run ops (fst (FileStorage.new path w))
                                            (snd (FileStorage.new path w))))).
  { right. eexists. split; [exact Hwk | exact Hsync']. }
  destruct (new_in_sync path' _ Hnf' Hboot') as (_ & _ & Hsame).
  split.
  { rewrite file_run_filePath, !new_filePath. exact Hpath. }
  split; [exact (Hsame _ Hsync' Hwk)|]. split; [|split; assumption].
  rewrite new_world. unfold loaded_world, read_reports_missing.
  rewrite Hnf'. unfold snapshot_in_sync in Hsync'.
  destruct (file (world (run ops (fst (FileStorage.new path w))
                             (snd (FileStorage.new path w))))) eqn:E;
    [simpl; exact E | discriminate].
Qed.

(** ann and bob are created and ann deleted; a second store on the same
    path finds bob. *)
Lemma restart_recovers_the_collection_witness :
  let s := FileStorage.new (Some "users.json") fresh_disk in
  let r := run [CreateUser (mkInsertUser "ann" "h1");
                CreateUser (mkInsertUser "bob" "h2"); DeleteUser "0"]
               (fst s) (snd s) in
  FileStorage.users (fst (FileStorage.new (Some "users.json") (world r)))
  = [("10", mkUser "10" "bob" "h2")].
Proof.
  exact (proj1 (proj2 (restart_recovers_the_collection
                  [CreateUser (mkInsertUser "ann" "h1");
                   CreateUser (mkInsertUser "bob" "h2"); DeleteUser "0"]
                  (Some "users.json") (Some "users.json") fresh_disk
                  (fun n => eq_refl) (or_introl eq_refl) eq_refl eq_refl))).
Defined.

(** ** The auth endpoints *)

(** X11.  With any store behind them, [/api/register] and [/api/login]
    answer 400 to a body whose username or password is missing or the
    empty string, without a call to the store: the store and the world are
    as they were. *)
Theorem incomplete_body_is_refused_without_a_call_to_the_store
    {T : Type} `{IStorage T} (bcrypt : Bcrypt) (salt : string) (req : Body)
    (this : T) (w : World) :
  truthy (body_username req) = None \/ truthy (body_password req) = None ->
  post_register bcrypt salt req this w
  = (Returns (mkResponse 400 (ErrorPayload "username and password are required")),
     this, w) /\
  post_login bcrypt req this w
  = (Returns (mkResponse 400 (ErrorPayload "username and password are required")),
     this, w).
Proof.
  intros Hmiss. unfold post_register, post_login, try_catch.
  destruct (truthy (body_username req)) as [name|];
    destruct (truthy (body_password req)) as [pass|];
    try (split; reflexivity).
  destruct Hmiss; discriminate.
Qed.

Lemma incomplete_body_is_refused_without_a_call_to_the_store_witness :
  let this := FileStorage.mk ann_and_bob "users.json" in
  let req := mkBody (Some EmptyString) (Some "secret") in
  result (post_register toy_bcrypt "s" req this (broken_disk fresh_disk))
  = Returns (mkResponse 400 (ErrorPayload "username and password are required")).
Proof.
  exact (f_equal result
           (proj1 (incomplete_body_is_refused_without_a_call_to_the_store
                     toy_bcrypt "s" (mkBody (Some EmptyString) (Some "secret"))
                     (FileStorage.mk ann_and_bob "users.json")
                     (broken_disk fresh_disk) (or_introl eq_refl)))).
Defined.

(** X12.  On the durable store, [/api/register] with a username that a
    stored record has answers 409 and leaves the store and the world as
    they were: nothing is hashed, drawn or written. *)
Theorem registration_of_a_taken_username_is_refused
    (bcrypt : Bcrypt) (salt : string) (req : Body) (name pass : string)
    (u : User) (m : JSMap.t User) (path : string) (w : World) :
  truthy (body_username req) = Some name ->
  truthy (body_password req) = Some pass ->
  In u (JSMap.values m) ->
  username u = name ->
  post_register bcrypt salt req (FileStorage.mk m path) w
  = (Returns (mkResponse 409 (ErrorPayload "username already taken")),
     FileStorage.mk m path, w).
Proof.
  intros Hn Hp Hin Hu. rewrite post_register_run, Hn, Hp. simpl.
  destruct (find_present_name name _ u Hin Hu) as [v Hv]. now rewrite Hv.
Qed.

Lemma registration_of_a_taken_username_is_refused_witness :
  post_register toy_bcrypt "s" (mkBody (Some "bob") (Some "other"))
    (FileStorage.mk ann_and_bob "users.json") fresh_disk
  = (Returns (mkResponse 409 (ErrorPayload "username already taken")),
     FileStorage.mk ann_and_bob "users.json", fresh_disk).
Proof.
  apply (registration_of_a_taken_username_is_refused toy_bcrypt "s"
           (mkBody (Some "bob") (Some "other")) "bob" "other"
           (mkUser "2" "bob" "s$h2")); try reflexivity.
  simpl. right. left. reflexivity.
Defined.

(** X13.  On the durable store, [/api/register] with a username that no
    stored record has, when the persist does not fail, answers 201 with the
    id drawn and the username, and no password; the record stored under the
    id has the hash as its password, the snapshot file holds the
    collection, a lookup by the username finds the record, and, the id
    drawn not being in use, [/api/users] lists the user last. *)
Theorem registration_of_a_new_username_stores_the_hash
    (bcrypt : Bcrypt) (salt : string) (req : Body) (name pass : string)
    (m : JSMap.t User) (path : string) (w : World) :
  truthy (body_username req) = Some name ->
  truthy (body_password req) = Some pass ->
  (forall u, In u (JSMap.values m) -> username u <> name) ->
  persist_fault w = None ->
  let r := post_register bcrypt salt req (FileStorage.mk m path) w in
  let i := entropy w (drawn w) in
  let user := mkUser i name (hashSync bcrypt salt pass) in
  result r = Returns (mkResponse 201 (UserPayload (mkSafeUser i name))) /\
  FileStorage.users (object r) = JSMap.set i user m /\
  snapshot_in_sync (object r) (world r) /\
  result (FileStorage.getUserByUsername name (object r) (world r))
  = Returns (Some user) /\
  (JSMap.get i m = None ->
   result (get_users (object r) (world r))
   = Returns (mkResponse 200
       (UsersPayload (map strip_password (JSMap.values m) ++ [mkSafeUser i name])%list))).
Proof.
  intros Hn Hp Hnew Hpersist. cbv zeta.
  rewrite post_register_run, Hn, Hp. cbn [FileStorage.users FileStorage.filePath].
  rewrite (find_absent_name name _ Hnew). cbv zeta.
  rewrite Hpersist. unfold result, object, world.
  cbn [fst snd FileStorage.users FileStorage.filePath].
  split; [reflexivity|]. split; [reflexivity|]. split; [reflexivity|]. split.
  - rewrite getUserByUsername_run.
    cbn [fst snd FileStorage.users FileStorage.filePath]. f_equal.
    apply (find_username_set _ (mkUser (entropy w (drawn w)) name (hashSync bcrypt salt pass))).
    simpl. apply find_absent_name, Hnew.
  - intros Hfresh. rewrite get_users_run.
    cbn [fst snd FileStorage.users FileStorage.filePath].
    rewrite (set_absent _ _ _ Hfresh). unfold JSMap.values.
    now rewrite !map_app.
Qed.

Lemma registration_of_a_new_username_stores_the_hash_witness :
  let r := post_register toy_bcrypt "s" (mkBody (Some "cy") (Some "h3"))
             (FileStorage.mk ann_and_bob "users.json") fresh_disk in
  result r = Returns (mkResponse 201 (UserPayload (mkSafeUser "0" "cy"))) /\
  JSMap.get "0" (FileStorage.users (object r)) = Some (mkUser "0" "cy" "s$h3").
Proof.
  assert (Hnew : forall u, In u (JSMap.values ann_and_bob) -> username u <> "cy").
  { simpl. intros u [<-|[<-|[]]]; discriminate. }
  pose proof (registration_of_a_new_username_stores_the_hash toy_bcrypt "s"
                (mkBody (Some "cy") (Some "h3")) "cy" "h3" ann_and_bob
                "users.json" fresh_disk eq_refl eq_refl Hnew eq_refl) as H.
  cbv zeta in H. destruct H as (Hres & Husers & _).
  split; [exact Hres|]. rewrite Husers. reflexivity.
Defined.

(** X14.  On the durable store, when the persist of a registration fails,
    [/api/register] answers 500, the file is what it was, and the user is
    in memory all the same: a later registration of the same username
    answers 409. *)
Theorem registration_that_fails_to_persist_still_takes_the_username
    (bcrypt : Bcrypt) (salt : string) (req : Body) (name pass : string)
    (m : JSMap.t User) (path : string) (w : World) (e : errno)
    (salt' : string) (req' : Body) (pass' : string) :
  truthy (body_username req) = Some name ->
  truthy (body_password req) = Some pass ->
  (forall u, In u (JSMap.values m) -> username u <> name) ->
  persist_fault w = Some e ->
  truthy (body_username req') = Some name ->
  truthy (body_password req') = Some pass' ->
  let r := post_register bcrypt salt req (FileStorage.mk m path) w in
  let i := entropy w (drawn w) in
  let user := mkUser i name (hashSync bcrypt salt pass) in
  result r = Returns (mkResponse 500 (ErrorPayload "failed to create user")) /\
  FileStorage.users (object r) = JSMap.set i user m /\
  file (world r) = file w /\
  post_register bcrypt salt' req' (object r) (world r)
  = (Returns (mkResponse 409 (ErrorPayload "username already taken")),
     object r, world r).
Proof.
  intros Hn Hp Hnew Hpersist Hn' Hp'. cbv zeta.
  rewrite post_register_run, Hn, Hp. cbn [FileStorage.users FileStorage.filePath].
  rewrite (find_absent_name name _ Hnew). cbv zeta.
  rewrite Hpersist. unfold result, object, world.
  cbn [fst snd FileStorage.users FileStorage.filePath].
  split; [reflexivity|]. split; [reflexivity|].
  split; [rewrite file_persist_failed; reflexivity|].
  rewrite post_register_run, Hn', Hp'.
  cbn [fst snd FileStorage.users FileStorage.filePath].
  rewrite (find_username_set _ (mkUser (entropy w (drawn w)) name (hashSync bcrypt salt pass))).
  - reflexivity.
  - simpl. apply find_absent_name, Hnew.
Qed.

Lemma registration_that_fails_to_persist_still_takes_the_username_witness :
  let this := FileStorage.mk ann_and_bob "users.json" in
  let req := mkBody (Some "cy") (Some "h3") in
  let r := post_register toy_bcrypt "s" req this (broken_disk fresh_disk) in
  result r = Returns (mkResponse 500 (ErrorPayload "failed to create user")) /\
  result (post_register toy_bcrypt "t" req (object r) (world r))
  = Returns (mkResponse 409 (ErrorPayload "username already taken")).
Proof.
  assert (Hnew : forall u, In u (JSMap.values ann_and_bob) -> username u <> "cy").
  { simpl. intros u [<-|[<-|[]]]; discriminate. }
  pose proof (registration_that_fails_to_persist_still_takes_the_username
                toy_bcrypt "s" (mkBody (Some "cy") (Some "h3")) "cy" "h3"
                ann_and_bob "users.json" (broken_disk fresh_disk) EIO
                "t" (mkBody (Some "cy") (Some "h3")) "h3"
                eq_refl eq_refl Hnew eq_refl eq_refl eq_refl) as H.
  cbv zeta in H. destruct H as (Hres & _ & _ & Hagain).
  split; [exact Hres | exact (f_equal result Hagain)].
Defined.

(** X15.  On the durable store, for a body whose members are strings,
    [/api/login] leaves the store and the world as they were and answers
    200, 400, 401 or 500.  It answers 200 only when a stored record has the
    username and [compareSync] accepts the password for the password stored
    with it, and the answer is that record without its password; it answers
    500 only when [compareSync] throws on the password stored with such a
    record.  When no two stored records have the same username, it answers
    200 whenever there is a record with the username for which
    [compareSync] accepts the password. *)
Theorem login_needs_a_password_accepted_for_a_stored_record
    (bcrypt : Bcrypt) (req : Body) (m : JSMap.t User) (path : string) (w : World) :
  let r := post_login bcrypt req (FileStorage.mk m path) w in
  object r = FileStorage.mk m path /\
  world r = w /\
  exists resp,
    result r = Returns resp /\
    (status resp = 200 \/ status resp = 400 \/ status resp = 401
     \/ status resp = 500) /\
    (status resp = 200 ->
     exists name pass u,
       truthy (body_username req) = Some name /\
       truthy (body_password req) = Some pass /\
       In u (JSMap.values m) /\ username u = name /\
       compareSync bcrypt pass (password u) = Some true /\
       payload resp = UserPayload (strip_password u)) /\
    (status resp = 500 ->
     exists name pass u,
       truthy (body_username req) = Some name /\
       truthy (body_password req) = Some pass /\
       In u (JSMap.values m) /\ username u = name /\
       compareSync bcrypt pass (password u) = None) /\
    (unique_usernames m ->
     forall name pass u,
       truthy (body_username req) = Some name ->
       truthy (body_password req) = Some pass ->
       In u (JSMap.values m) -> username u = name ->
       compareSync bcrypt pass (password u) = Some true ->
       resp = mkResponse 200 (UserPayload (strip_password u))).
Proof.
  cbv zeta. rewrite post_login_run. unfold object, world, result.
  cbn [fst snd FileStorage.users].
  split; [reflexivity|]. split; [reflexivity|].
  eexists. split; [reflexivity|].
  destruct (truthy (body_username req)) as [name|] eqn:En.
  2:{ split; [auto|]. split; [discriminate|]. split; [discriminate|].
      intros _ ? ? ? H. discriminate H. }
  destruct (truthy (body_password req)) as [pass|] eqn:Ep.
  2:{ split; [auto|]. split; [discriminate|]. split; [discriminate|].
      intros _ ? ? ? _ H. discriminate H. }
  destruct (Array_find (has_username name) (JSMap.values m)) as [v|] eqn:Ef.
  - pose proof (Array_find_Some _ _ _ Ef) as (b & a & Hl & Hv & _).
    assert (Hin : In v (JSMap.values m)).
    { rewrite Hl. apply in_or_app. right. now left. }
    unfold has_username in Hv. apply String.eqb_eq in Hv.
    assert (Huniq : unique_usernames m ->
                    forall u, In u (JSMap.values m) -> username u = name -> u = v).
    { intros Hu u Hu_in Hu_name.
      pose proof (find_unique_username _ u Hu Hu_in) as Hfu.
      rewrite Hu_name, Ef in Hfu. congruence. }
    destruct (compareSync bcrypt pass (password v)) as [[|]|] eqn:Ec.
    + split; [auto|]. split; [|split; [discriminate|]].
      * intros _. exists name, pass, v. repeat split; auto.
      * intros Hu name' pass' u [= <-] [= <-] Hu_in Hu_name _.
        now rewrite (Huniq Hu u Hu_in Hu_name).
    + split; [auto|]. split; [discriminate|]. split; [discriminate|].
      intros Hu name' pass' u [= <-] [= <-] Hu_in Hu_name Hc.
      rewrite (Huniq Hu u Hu_in Hu_name) in Hc. congruence.
    + split; [auto 6|]. split; [discriminate|]. split.
      * intros _. exists name, pass, v. repeat split; auto.
      * intros Hu name' pass' u [= <-] [= <-] Hu_in Hu_name Hc.
        rewrite (Huniq Hu u Hu_in Hu_name) in Hc. congruence.
  - split; [auto|]. split; [discriminate|]. split; [discriminate|].
    intros _ name' pass' u [= <-] _ Hu_in Hu_name _.
    pose proof (proj1 (Array_find_None _ _) Ef u Hu_in) as Hp.
    unfold has_username in Hp. apply String.eqb_neq in Hp. contradiction.
Qed.

(** bob logs in with his password; against a stored password that is no
    hash, the comparison throws and the answer is 500. *)
Lemma login_needs_a_password_accepted_for_a_stored_record_witness :
  result (post_login toy_bcrypt (mkBody (Some "bob") (Some "h2"))
            (FileStorage.mk ann_and_bob "users.json") fresh_disk)
  = Returns (mkResponse 200 (UserPayload (mkSafeUser "2" "bob"))) /\
  result (post_login toy_bcrypt (mkBody (Some "bob") (Some "h2"))
            (FileStorage.mk bob_and_cy "users.json") fresh_disk)
  = Returns (mkResponse 500 (ErrorPayload "failed to login")).
Proof.
  split; [|reflexivity].
  pose proof (login_needs_a_password_accepted_for_a_stored_record toy_bcrypt
                (mkBody (Some "bob") (Some "h2")) ann_and_bob "users.json"
                fresh_disk) as H.
  cbv zeta in H. destruct H as (_ & _ & resp & Hres & _ & _ & _ & Hcomplete).
  assert (Huniq : unique_usernames ann_and_bob).
  { unfold unique_usernames. simpl.
    repeat constructor; simpl; intuition discriminate. }
  rewrite Hres. f_equal.
  apply (Hcomplete Huniq "bob" "h2" (mkUser "2" "bob" "s$h2")); try reflexivity.
  simpl. right. left. reflexivity.
Defined.

(** X16.  On the durable store, after [/api/register] of a username that no
    stored record had, [/api/login] with the same body answers 200 with the
    id drawn at the registration, provided [compareSync] accepts the
    password for its hash: also when the registration answered 500 because
    its persist failed. *)
Theorem registered_user_logs_in_whatever_the_disk_did
    (bcrypt : Bcrypt) (salt : string) (req : Body) (name pass : string)
    (m : JSMap.t User) (path : string) (w : World) :
  truthy (body_username req) = Some name ->
  truthy (body_password req) = Some pass ->
  (forall u, In u (JSMap.values m) -> username u <> name) ->
  compareSync bcrypt pass (hashSync bcrypt salt pass) = Some true ->
  let r := post_register bcrypt salt req (FileStorage.mk m path) w in
  let l := post_login bcrypt req (object r) (world r) in
  let safe := mkSafeUser (entropy w (drawn w)) name in
  (result r = Returns (mkResponse 201 (UserPayload safe)) \/
   result r = Returns (mkResponse 500 (ErrorPayload "failed to create user"))) /\
  result l = Returns (mkResponse 200 (UserPayload safe)).
Proof.
  intros Hn Hp Hnew Hc. cbv zeta.
  rewrite post_login_run, post_register_run, Hn, Hp.
  cbn [FileStorage.users FileStorage.filePath].
  rewrite (find_absent_name name _ Hnew). cbv zeta.
  assert (Hfind : Array_find (has_username name)
                    (JSMap.values
                       (JSMap.set (entropy w (drawn w))
                          (mkUser (entropy w (drawn w)) name (hashSync bcrypt salt pass)) m))
                  = Some (mkUser (entropy w (drawn w)) name (hashSync bcrypt salt pass))).
  { apply (find_username_set _ (mkUser (entropy w (drawn w)) name (hashSync bcrypt salt pass))).
    simpl. apply find_absent_name, Hnew. }
  destruct (persist_fault w); unfold result, object, world;
    cbn [fst snd FileStorage.users FileStorage.filePath];
    rewrite Hfind; cbn [password]; rewrite Hc;
    (split; [auto | reflexivity]).
Qed.

Lemma registered_user_logs_in_whatever_the_disk_did_witness :
  let req := mkBody (Some "cy") (Some "h3") in
  let r := post_register toy_bcrypt "s" req
             (FileStorage.mk ann_and_bob "users.json") (broken_disk fresh_disk) in
  result (post_login toy_bcrypt req (object r) (world r))
  = Returns (mkResponse 200 (UserPayload (mkSafeUser "0" "cy"))).
Proof.
  assert (Hnew : forall u, In u (JSMap.values ann_and_bob) -> username u <> "cy").
  { simpl. intros u [<-|[<-|[]]]; discriminate. }
  exact (proj2 (registered_user_logs_in_whatever_the_disk_did toy_bcrypt "s"
                  (mkBody (Some "cy") (Some "h3")) "cy" "h3" ann_and_bob
                  "users.json" (broken_disk fresh_disk)
                  eq_refl eq_refl Hnew eq_refl)).
Defined.

(** X17.  On the durable store, through any sequence of requests to the
    three endpoints no handler throws, whichever [fs] calls fail, and a
    collection in which no two records have the same username stays so. *)
Theorem requests_never_throw_and_keep_usernames_unique
    (bcrypt : Bcrypt) (rqs : list Request) (this : FileStorage.t) (w : World) :
  let r := serve_all bcrypt rqs this w in
  Forall (fun o => exists resp, o = Returns resp) (result r) /\
  (unique_usernames (FileStorage.users this) ->
   unique_usernames (FileStorage.users (object r))).
Proof. cbv zeta. apply serve_all_users. Qed.

Lemma requests_never_throw_and_keep_usernames_unique_witness :
  let s := FileStorage.new None fresh_disk in
  let r := serve_all toy_bcrypt
             [Register "s" (mkBody (Some "cy") (Some "h3"));
              Register "t" (mkBody (Some "cy") (Some "h4"));
              Login (mkBody (Some "cy") (Some "h4")); Users]
             (fst s) (snd s) in
  result r
  = [Returns (mkResponse 201 (UserPayload (mkSafeUser "0" "cy")));
     Returns (mkResponse 409 (ErrorPayload "username already taken"));
     Returns (mkResponse 401 (ErrorPayload "invalid credentials"));
     Returns (mkResponse 200 (UsersPayload [mkSafeUser "0" "cy"]))] /\
  unique_usernames (FileStorage.users (object r)).
Proof.
  split; [reflexivity|].
  apply (proj2 (requests_never_throw_and_keep_usernames_unique toy_bcrypt
                  [Register "s" (mkBody (Some "cy") (Some "h3"));
                   Register "t" (mkBody (Some "cy") (Some "h4"));
                   Login (mkBody (Some "cy") (Some "h4")); Users]
                  (fst (FileStorage.new None fresh_disk))
                  (snd (FileStorage.new None fresh_disk)))).
  constructor.
Defined.
